(** * RiSC-16 assembler ([assembler.py]): shallow embedding and properties

    The assembler is a batch pipeline over lists of text lines:
    [has_code]/[strip] (preprocessing), [convert_pseudoinstructions]
    (expansion of [.space] and [movi]), the label dictionary [LABELS],
    and [assemble_line] applied to every expanded line inside a
    [try]/[except] loop.  [imm_to_bin] encodes one numeric literal.

    Python values are modelled as follows.
    - [str] is [list ascii]: a string is its sequence of code points, and the
      model covers the code points below 256 (Latin-1).  That range contains
      the no-break space U+00A0 which the source writes into one of its
      format strings.
    - [int] is [Z].
    - An exception is a value of [exn]; code that can raise lives in the
      error monad [res].
    - [None] where a string is expected is [option str].
    - a [dict] is a [gmap].
    - [print] appends an event to a trace and does not fail.
    The builtins [int], [str], [bin], [strip], [split], [partition],
    [zfill] and the module [re] are modelled in [Py] and [Re] from their
    documented behaviour on such strings; the limit CPython puts on the
    number of digits of a decimal literal is not modelled.

    [main] reads the source file, picks the output path, opens it and
    writes the words.  It is modelled over an environment that answers
    its two calls of [open], and returns the list of what it did to the
    files and the console. *)

From Stdlib Require Import ZArith Ascii String List Lia.
From Stdlib Require Import DecimalString DecimalPos.
From stdpp Require Import gmap strings list fin_maps.

Set Default Proof Using "Type".

(** ** Strings *)

Definition str : Type := list ascii.

Inductive str_literal : Set :=
| LitNil
| LitCons (c : ascii) (l : str_literal).

Fixpoint literal_of_bytes (l : list Byte.byte) : str_literal :=
  match l with
  | [] => LitNil
  | b :: l => LitCons (ascii_of_byte b) (literal_of_bytes l)
  end.

Fixpoint bytes_of_literal (l : str_literal) : list Byte.byte :=
  match l with
  | LitNil => []
  | LitCons c l => byte_of_ascii c :: bytes_of_literal l
  end.

Declare Scope pystr_scope.
Delimit Scope pystr_scope with py.
Bind Scope pystr_scope with str.
#[warning="-via-type-remapping,-via-type-mismatch"]
String Notation str literal_of_bytes bytes_of_literal
  (via str_literal mapping [[nil] => LitNil, [cons] => LitCons]) : pystr_scope.

Local Open Scope Z_scope.
Local Open Scope pystr_scope.

(** ** Exceptions and the error monad *)

(** The exceptions the assembler can raise, named after the Python class
    and the place that raises it.  The payload is what the message is
    formatted from. *)
Inductive exn : Type :=
| ValueError_invalid_literal (base : Z) (s : str)
    (* int(s, base): "invalid literal for int() with base ..." *)
| ValueError_out_of_range (num minimum maximum : Z)
    (* imm_to_bin: "Immediate {} out of range {} to {}" *)
| ValueError_unpack (expected : nat)
    (* tuple unpacking: not enough / too many values to unpack *)
| TypeError_not_subscriptable
    (* m[1] where m is None: the regular expression did not match *)
| TypeError_NoneType_concat.
    (* None + str *)

Inductive res (A : Type) : Type :=
| Ok (a : A)
| Raise (e : exn).
Arguments Ok {A} a.
Arguments Raise {A} e.

Definition bind {A B} (x : res A) (f : A → res B) : res B :=
  match x with
  | Ok a => f a
  | Raise e => Raise e
  end.

Notation "x <- e1 ;; e2" := (bind e1 (λ x, e2))
  (at level 100, e1 at next level, right associativity,
   format "'[v' x  <-  e1 ;; '/' e2 ']'").

(** The longest prefix of [s] whose characters satisfy [p], and the rest. *)
Fixpoint take_while (p : ascii → bool) (s : str) : str :=
  match s with
  | c :: s' => if p c then c :: take_while p s' else []
  | [] => []
  end.

Fixpoint drop_while (p : ascii → bool) (s : str) : str :=
  match s with
  | c :: s' => if p c then drop_while p s' else s
  | [] => []
  end.

(** ** Python builtins *)

Module Py.

Definition code (c : ascii) : Z := Z.of_N (N_of_ascii c).

Definition between (lo hi : Z) (c : ascii) : bool :=
  (lo <=? code c) && (code c <=? hi).

(** [str.isspace] on one character; also the class [\s] of [re]. *)
Definition isspace (c : ascii) : bool :=
  between 9 13 c || between 28 32 c || between 133 133 c
  || between 160 160 c.

(** The class [\w] of [re] on a [str] pattern: alphanumeric characters
    ([str.isalnum]) and the underscore. *)
Definition isword (c : ascii) : bool :=
  between 48 57 c || between 65 90 c || between 95 95 c
  || between 97 122 c || between 170 170 c || between 178 179 c
  || between 181 181 c || between 185 186 c || between 188 190 c
  || between 192 214 c || between 216 246 c || between 248 255 c.

(** The class [.] of [re] without DOTALL: anything but a newline. *)
Definition isdot (c : ascii) : bool := negb (between 10 10 c).

(** White space that [int] skips around a literal. *)
Definition int_isspace (c : ascii) : bool :=
  between 9 13 c || between 32 32 c || between 133 133 c
  || between 160 160 c.

Definition lstrip (s : str) : str := drop_while isspace s.

Definition rstrip (s : str) : str := rev (lstrip (rev s)).

(** [s.strip()] *)
Definition strip (s : str) : str := rstrip (lstrip s).

(** [s.startswith(p)] *)
Fixpoint startswith (s p : str) : bool :=
  match p, s with
  | [], _ => true
  | a :: p', b :: s' => bool_decide (a = b) && startswith s' p'
  | _ :: _, [] => false
  end.

(** [s.endswith(p)] *)
Definition endswith (s p : str) : bool := startswith (rev s) (rev p).

(** [sub in s] *)
Fixpoint contains (sub s : str) : bool :=
  startswith s sub
  || match s with
     | [] => false
     | _ :: s' => contains sub s'
     end.

(** [s.split(sep)] for a separator of one character. *)
Fixpoint split (s : str) (sep : ascii) : list str :=
  match s with
  | [] => [[]]
  | c :: s' =>
      if bool_decide (c = sep) then [] :: split s' sep
      else match split s' sep with
           | x :: xs => (c :: x) :: xs
           | [] => [[c]]
           end
  end.

(** [s.partition(sep)] for a separator of one character. *)
Fixpoint partition (s : str) (sep : ascii) : str * str * str :=
  match s with
  | [] => ([], [], [])
  | c :: s' =>
      if bool_decide (c = sep) then ([], [sep], s')
      else let '(a, b, r) := partition s' sep in (c :: a, b, r)
  end.

(** [s * n] *)
Definition mul (s : str) (n : nat) : str := mjoin (replicate n s).

(** [s.zfill(width)] *)
Definition zfill (s : str) (width : Z) : str :=
  let pad := replicate (Z.to_nat (width - Z.of_nat (length s))) "0"%char in
  match s with
  | c :: s' =>
      if bool_decide (c = "+"%char ∨ c = "-"%char) then c :: pad ++ s'
      else pad ++ s
  | [] => pad
  end.

Fixpoint bin_pos (p : positive) (acc : str) : str :=
  match p with
  | xH => "1"%char :: acc
  | xO p' => bin_pos p' ("0"%char :: acc)
  | xI p' => bin_pos p' ("1"%char :: acc)
  end.

(** [bin(n)] *)
Definition bin (n : Z) : str :=
  match n with
  | Z0 => "0b0"
  | Zpos p => "0b" ++ bin_pos p []
  | Zneg p => "-0b" ++ bin_pos p []
  end.

(** [str(n)], also what [format] writes for an [int]. *)
Definition str_of_int (n : Z) : str :=
  list_ascii_of_string (NilZero.string_of_int (Z.to_int n)).

Definition digit_value (c : ascii) : option Z :=
  if between 48 57 c then Some (code c - 48)
  else if between 97 122 c then Some (code c - 87)
  else if between 65 90 c then Some (code c - 55)
  else None.

(** The digits of a literal: digits below [base], single underscores
    allowed between two digits.  [prev] tells whether the previous
    character was an underscore. *)
Fixpoint digits (base : Z) (acc : Z) (prev : bool) (s : str) : option Z :=
  match s with
  | [] => if prev then None else Some acc
  | c :: s' =>
      if bool_decide (c = "_"%char) then
        if prev then None else digits base acc true s'
      else match digit_value c with
           | Some d =>
               if d <? base then digits base (acc * base + d) false s'
               else None
           | None => None
           end
  end.

(** What follows the sign: for base 16 an optional [0x] or [0X], for
    base 2 an optional [0b] or [0B], one underscore allowed after it;
    then at least one digit. *)
Definition unsigned_literal (base : Z) (s : str) : option Z :=
  let body :=
    match s with
    | z :: x :: s' =>
        if bool_decide (z = "0"%char)
           && ((base =? 16) && bool_decide (x = "x"%char ∨ x = "X"%char)
               || (base =? 2) && bool_decide (x = "b"%char ∨ x = "B"%char))
        then match s' with
             | u :: s'' => if bool_decide (u = "_"%char) then s'' else s'
             | [] => s'
             end
        else s
    | _ => s
    end in
  match body with
  | [] => None
  | c :: _ => if bool_decide (c = "_"%char) then None
              else digits base 0 false body
  end.

(** [int(s, base)] for the bases 2, 10 and 16 ([int(s)] is base 10). *)
Definition int (s : str) (base : Z) : res Z :=
  let t := rev (drop_while int_isspace (rev (drop_while int_isspace s))) in
  let r :=
    match t with
    | c :: t' =>
        if bool_decide (c = "-"%char) then Z.opp <$> unsigned_literal base t'
        else if bool_decide (c = "+"%char) then unsigned_literal base t'
        else unsigned_literal base t
    | [] => None
    end in
  match r with
  | Some n => Ok n
  | None => Raise (ValueError_invalid_literal base s)
  end.

End Py.


(** ** Regular expressions

    A backtracking matcher for the fragment of [re] the assembler uses:
    literal characters, the classes [\w], [\s] and [.], sequencing, the
    greedy quantifiers [?], [+] and [*] (the last two on one-character
    classes, which is how the pattern uses them), capturing groups and
    the anchor [^].  The matcher is written in continuation-passing
    style: [k] is what remains to be matched, and a quantifier tries its
    longest alternative first and falls back when [k] fails. *)

Module Re.

Inductive regex : Type :=
| Bol                          (* ^ *)
| Chr (c : ascii)              (* a literal character *)
| Cls (p : ascii → bool)       (* a character class *)
| Seq (r1 r2 : regex)          (* r1 r2 *)
| Opt (r : regex)              (* r? *)
| Plus (p : ascii → bool)      (* p+ *)
| Star (p : ascii → bool)      (* p* *)
| Grp (n : nat) (r : regex).   (* ( r ), the n-th capturing group *)

Section matcher.
Context {A : Type}.
(** The string [re.match] was called on. *)
Variable whole : str.

Fixpoint star (p : ascii → bool) (s : str) (g : gmap nat str)
    (k : str → gmap nat str → option A) : option A :=
  match s with
  | c :: s' =>
      if p c then
        match star p s' g k with
        | Some a => Some a
        | None => k s g
        end
      else k s g
  | [] => k s g
  end.

Fixpoint run (r : regex) (s : str) (g : gmap nat str)
    (k : str → gmap nat str → option A) : option A :=
  match r with
  | Bol => if bool_decide (length s = length whole) then k s g else None
  | Chr c =>
      match s with
      | c' :: s' => if bool_decide (c' = c) then k s' g else None
      | [] => None
      end
  | Cls p =>
      match s with
      | c' :: s' => if p c' then k s' g else None
      | [] => None
      end
  | Seq r1 r2 => run r1 s g (λ s' g', run r2 s' g' k)
  | Opt r' =>
      match run r' s g k with
      | Some a => Some a
      | None => k s g
      end
  | Plus p =>
      match s with
      | c' :: s' => if p c' then star p s' g k else None
      | [] => None
      end
  | Star p => star p s g k
  | Grp n r' =>
      run r' s g
        (λ s' g', k s' (<[n := take (length s - length s')%nat s]> g'))
  end.
End matcher.

(** [re.match(r, s)]: the captured groups of the first successful way
    to match [r] at the start of [s], or [None]. *)
Definition match_ (r : regex) (s : str) : option (gmap nat str) :=
  run s r s ∅ (λ _ g, Some g).

End Re.

Infix ";;;" := Re.Seq (at level 60, right associativity).

(** ** The assembler *)

(** The pattern of [convert_pseudoinstructions] and [assemble_line], term
    by term (written here with a blank between its terms):
    [^ (\w+:)? (?:\s+)? (\.?\w+) \s? ( .* ) \s?] *)
Definition line_re : Re.regex :=
  Re.Bol ;;; Re.Opt (Re.Grp 1 (Re.Plus Py.isword ;;; Re.Chr ":"))
  ;;; Re.Opt (Re.Plus Py.isspace)
  ;;; Re.Grp 2 (Re.Opt (Re.Chr ".") ;;; Re.Plus Py.isword)
  ;;; Re.Opt (Re.Cls Py.isspace)
  ;;; Re.Grp 3 (Re.Star Py.isdot)
  ;;; Re.Opt (Re.Cls Py.isspace).

(** [m[1], m[2], m[3]] of a match object.  Group 1 is optional in the
    pattern and is [None] when it took no part in the match; groups 2 and
    3 are not optional, they are set whenever the pattern matches (lemma
    [line_re_groups]). *)
Record groups : Type := Groups {
  m1 : option str;
  m2 : str;
  m3 : str
}.

Definition line_match (line : str) : option groups :=
  g ← Re.match_ line_re line;
  Some (Groups (g !! 1%nat) (default "" (g !! 2%nat)) (default "" (g !! 3%nat))).

(** Subscripting the result of [re.match]: [None] is not subscriptable. *)
Definition subscript (m : option groups) : res groups :=
  match m with
  | Some g => Ok g
  | None => Raise TypeError_not_subscriptable
  end.

(** The first statement of [imm_to_bin]: the literal is hexadecimal when
    it contains [0x], binary when it contains [0b], decimal otherwise. *)
Definition parse_num (num : str) : res Z :=
  if Py.contains "0x" num then Py.int num 16
  else if Py.contains "0b" num then Py.int num 2
  else Py.int num 10.

(** [imm_to_bin(num, bits, signed)], after that first statement.

    For [bits < 1] Python computes [2 ** (bits - 1)] (and, for negative
    [bits], [2 ** bits]) as a fraction strictly between 0 and 1, and the
    interval [minimum..maximum] then contains no integer, except the
    unsigned interval for [bits = 0], which is [0..0].  [Z.pow] gives 0
    for a negative exponent, and the interval below contains the same
    integers, so the range test has the same outcome for every [bits]. *)
Definition imm_to_bin (num : str) (bits : Z) (signed : bool) : res str :=
  num <- parse_num num ;;
  let maximum := if signed then 2 ^ (bits - 1) - 1 else 2 ^ bits - 1 in
  let minimum := if signed then -1 * maximum - 1 else 0 in
  if negb ((minimum <=? num) && (num <=? maximum)) then
    Raise (ValueError_out_of_range num minimum maximum)
  else if num <? 0 then
    let bitmask := 2 ^ bits - 1 in
    let num := - num in
    Ok (drop 2 (Py.bin (Z.lxor bitmask num + 1)))
  else
    Ok (Py.zfill (drop 2 (Py.bin num)) bits).

(** The no-break space the source has in the format string of [movi]. *)
Definition nbsp : ascii := "160"%char.

(** [regA, imm = args.split(",")] *)
Definition unpack2 {A} (l : list A) : res (A * A) :=
  match l with
  | [a; b] => Ok (a, b)
  | _ => Raise (ValueError_unpack 2)
  end.

(** [regA, regB, imm = args.split(",")] *)
Definition unpack3 {A} (l : list A) : res (A * A * A) :=
  match l with
  | [a; b; c] => Ok (a, b, c)
  | _ => Raise (ValueError_unpack 3)
  end.

(** [a, b, c = (f(n) for n in l)]: the generator is advanced once per
    target and once more to see that it is exhausted, and each step
    evaluates [f] on the next element. *)
Definition unpack3_gen {A B} (f : A → res B) (l : list A) : res (B * B * B) :=
  match l with
  | a :: l1 =>
      x <- f a ;;
      match l1 with
      | b :: l2 =>
          y <- f b ;;
          match l2 with
          | c :: l3 =>
              z <- f c ;;
              match l3 with
              | [] => Ok (x, y, z)
              | d :: _ => _ <- f d ;; Raise (ValueError_unpack 3)
              end
          | [] => Raise (ValueError_unpack 3)
          end
      | [] => Raise (ValueError_unpack 3)
      end
  | [] => Raise (ValueError_unpack 3)
  end.

(** The body of the loop of [convert_pseudoinstructions]: what one line
    appends to [newcode]. *)
Definition convert_line (line : str) : res (list str) :=
  m <- subscript (line_match line) ;;
  let label := default "" (m1 m) in
  let operation := m2 m in
  let args := m3 m in
  if bool_decide (operation = ".space") then
    n <- Py.int args 10 ;;
    Ok ((label ++ " .fill 0") :: replicate (Z.to_nat (n - 1)) ".fill 0")
  else if bool_decide (operation = "movi") then
    p <- unpack2 (Py.split args ",") ;;
    let regA := p.1 in
    let imm := p.2 in
    hi <- Py.int imm 10 ;;
    lo <- Py.int imm 10 ;;
    Ok [label ++ nbsp :: "lui " ++ regA ++ "," ++ Py.str_of_int (hi `div` 64);
        "lli " ++ regA ++ "," ++ Py.str_of_int (lo `mod` 64)]
  else
    Ok [line].

Fixpoint convert_loop (code : list str) (newcode : list str)
    : res (list str) :=
  match code with
  | [] => Ok newcode
  | line :: code' =>
      new <- convert_line line ;;
      convert_loop code' (newcode ++ new)
  end.

Definition convert_pseudoinstructions (code : list str) : res (list str) :=
  convert_loop code [].

(** The opcode dictionary of [assemble_line]. *)
Definition opcodes : gmap str str :=
  <["add" := "000"]> (<["addi" := "001"]> (<["nand" := "010"]>
  (<["lui" := "011"]> (<["sw" := "100"]> (<["lw" := "101"]>
  (<["beq" := "110"]> (<["jalr" := "111"]> ∅))))))).

(** [opcode + s] where [opcode] comes from [dict.get]; the sums of
    [assemble_line] associate to the left, so this is their first
    addition. *)
Definition concat_opcode (opcode : option str) (s : str) : res str :=
  match opcode with
  | Some o => Ok (o ++ s)
  | None => Raise TypeError_NoneType_concat
  end.

(** [assemble_line(line)]; the result [None] is Python's [None], returned
    when no branch of the [if] chain is taken. *)
Definition assemble_line (line : str) : res (option str) :=
  m <- subscript (line_match line) ;;
  let operation := m2 m in
  let args := m3 m in
  let opcode := opcodes !! operation in
  if bool_decide (operation ∈ ["add"; "nand"]) then
    r <- unpack3_gen (λ n, imm_to_bin n 3 false) (Py.split args ",") ;;
    let '(regA, regB, regC) := r in
    w <- concat_opcode opcode regA ;;
    Ok (Some (w ++ regB ++ "0000" ++ regC))
  else if bool_decide (operation ∈ ["addi"; "sw"; "lw"; "beq"; "jalr"]) then
    r <- unpack3 (Py.split args ",") ;;
    let '(regA, regB, imm) := r in
    a <- imm_to_bin regA 3 false ;;
    w <- concat_opcode opcode a ;;
    b <- imm_to_bin regB 3 false ;;
    i <- imm_to_bin imm 7 true ;;
    Ok (Some (w ++ b ++ i))
  else if bool_decide (operation = "lui") then
    r <- unpack2 (Py.split args ",") ;;
    let '(regA, imm) := r in
    a <- imm_to_bin regA 3 false ;;
    w <- concat_opcode opcode a ;;
    i <- imm_to_bin imm 10 false ;;
    Ok (Some (w ++ i))
  else if bool_decide (operation = "nop") then
    Ok (Some "00000000000000000")
  else if bool_decide (operation = "halt") then
    i <- imm_to_bin "1" 7 false ;;
    Ok (Some ("111000000" ++ i))
  else if bool_decide (operation = "lli") then
    r <- unpack2 (Py.split args ",") ;;
    let '(regA, imm) := r in
    a <- imm_to_bin regA 3 false ;;
    i <- imm_to_bin imm 6 false ;;
    Ok (Some ("001" ++ Py.mul a 2 ++ "0" ++ i))
  else if bool_decide (operation = ".fill") then
    w <- imm_to_bin args 16 true ;;
    Ok (Some w)
  else
    Ok None.

(** [has_code(line)]: [not] binds tighter than [or]. *)
Definition has_code (line : str) : bool :=
  negb (Py.startswith (Py.strip line) "#")
  || bool_decide (Py.strip line = "").

(** [(line.strip() for line in code if has_code(line))] *)
Definition preprocess (code : list str) : list str :=
  Py.strip <$> filter (λ line, has_code line = true) code.

(** [enumerate(code)] *)
Definition enumerate {A} (code : list A) : list (nat * A) :=
  imap (λ i x, (i, x)) code.

(** [dict(pairs)]: a later pair replaces an earlier one with the same key. *)
Definition dict {K V} `{Countable K} (pairs : list (K * V)) : gmap K V :=
  foldl (λ d kv, <[kv.1 := kv.2]> d) ∅ pairs.

(** The label dictionary [LABELS] of [assemble_code]. *)
Definition LABELS (code : list str) : gmap str nat :=
  dict (map (λ x : nat * str, ((Py.partition x.2 ":").1.1, x.1))
         (filter (λ x : nat * str, Py.endswith (Py.partition x.2 " ").1.1 ":" = true)
            (enumerate code))).

(** What the assembler prints, one event per call of [print]. *)
Inductive event : Type :=
| Assembling (line : str)            (* "assembling '{}'" *)
| Printed (word : option str)        (* machinecode[-1] *)
| ErrorOn (line : str) (e : exn).    (* "Error on line '{}': {}" *)

(** The loop of [assemble_code] over the expanded lines.  The result
    [None] is the bare [return] of the [except] branch. *)
Fixpoint assemble_loop (code : list str) (machinecode : list (option str))
    (out : list event) : option (list (option str)) * list event :=
  match code with
  | [] => (Some machinecode, out)
  | line :: code' =>
      match assemble_line line with
      | Ok w =>
          assemble_loop code' (machinecode ++ [w])
            (out ++ [Assembling line; Printed w])
      | Raise e => (None, out ++ [Assembling line; ErrorOn line e])
      end
  end.

(** [assemble_code(code)]: the value returned (or the exception that
    escapes, raised by [convert_pseudoinstructions] outside the [try])
    and what was printed. *)
Definition assemble_code (code : list str)
    : res (option (list (option str))) * list event :=
  let code := preprocess code in
  match convert_pseudoinstructions code with
  | Raise e => (Raise e, [])
  | Ok code =>
      let labels := LABELS code in
      let '(r, out) := assemble_loop code [] [] in
      (Ok r, out)
  end.


(** ** Notions used to state the properties *)

(** The mnemonics [assemble_line] has a branch for. *)
Definition recognized : list str :=
  ["add"; "nand"; "addi"; "sw"; "lw"; "beq"; "jalr"; "lui"; "nop"; "halt";
   "lli"; ".fill"].

(** A string of binary digits. *)
Definition binary (s : str) : Prop :=
  Forall (λ c, c = "0"%char ∨ c = "1"%char) s.

(** A string of binary digits read as an unsigned numeral. *)
Definition unsigned_value (s : str) : Z :=
  foldl (λ acc c, 2 * acc + (if bool_decide (c = "1"%char) then 1 else 0)) 0 s.

(** A string of binary digits read as a two's-complement numeral whose
    width is the length of the string: the first digit is the sign. *)
Definition signed_value (s : str) : Z :=
  match s with
  | c :: _ =>
      if bool_decide (c = "1"%char)
      then unsigned_value s - 2 ^ Z.of_nat (length s)
      else unsigned_value s
  | [] => 0
  end.

(** The label a line contributes to [LABELS]: the filter and the key of
    the dictionary comprehension. *)
Definition label_of (line : str) : option str :=
  if Py.endswith (Py.partition line " ").1.1 ":"
  then Some (Py.partition line ":").1.1
  else None.

(** Line [i] of [code] carries the label [X]. *)
Definition carries (code : list str) (i : nat) (X : str) : Prop :=
  ∃ line, code !! i = Some line ∧ label_of line = Some X.

(** A label name as the pattern recognises one: word characters, at
    least one. *)
Definition label_name (X : str) : Prop :=
  X ≠ [] ∧ Forall (λ c, Py.isword c = true) X.

(** The text of one operand: no comma and no newline. *)
Definition operand_text (s : str) : Prop :=
  Forall (λ c, c ≠ ","%char ∧ Py.isdot c = true) s.



(** What the loop of [assemble_code] prints for lines that assemble. *)
Definition printed (code : list str) (ws : list (option str)) : list event :=
  mjoin (zip_with (λ l w, [Assembling l; Printed w]) code ws).

(** *** A direct description of what [line_re] matches *)

(** The longest run of word characters at the start of [s], which must
    not be empty, after the characters [pre] already read. *)
Definition word_at (pre s : str) : option (str * str) :=
  match take_while Py.isword s with
  | [] => None
  | w => Some (pre ++ w, drop_while Py.isword s)
  end.

(** The mnemonic at the start of [s]: an optional dot and a run of word
    characters. *)
Definition op_at (s : str) : option (str * str) :=
  match s with
  | c :: s' => if bool_decide (c = "."%char) then word_at "." s'
               else word_at "" s
  | [] => None
  end.

(** The operand text after the mnemonic: one white space character is
    skipped, the text runs to the end of the line. *)
Definition args_at (s : str) : str :=
  take_while Py.isdot
    match s with
    | c :: s' => if Py.isspace c then s' else s
    | [] => s
    end.

(** White space, mnemonic and operands, under a given label. *)
Definition instr_at (label : option str) (s : str) : option groups :=
  match op_at (drop_while Py.isspace s) with
  | Some (op, rest) => Some (Groups label op (args_at rest))
  | None => None
  end.

Definition line_match_spec (s : str) : option groups :=
  match take_while Py.isword s, drop_while Py.isword s with
  | x :: xs, c :: rest =>
      if bool_decide (c = ":"%char) then
        match instr_at (Some ((x :: xs) ++ ":")) rest with
        | Some m => Some m
        | None => instr_at None s
        end
      else instr_at None s
  | _, _ => instr_at None s
  end.

(** The interval of [imm_to_bin] for a width of at least one bit. *)
Definition in_range (bits : Z) (signed : bool) (v : Z) : Prop :=
  if signed then - 2 ^ (bits - 1) ≤ v ≤ 2 ^ (bits - 1) - 1
  else 0 ≤ v ≤ 2 ^ bits - 1.

#[global] Instance in_range_dec (bits : Z) (signed : bool) (v : Z) :
  Decision (in_range bits signed v).
Proof. unfold in_range. destruct signed; apply _. Defined.

(** An out-of-range error, and a successful encoding. *)
Definition out_of_range_error (r : res str) : Prop :=
  ∃ num minimum maximum, r = Raise (ValueError_out_of_range num minimum maximum).

Definition succeeds (r : res str) : Prop := ∃ s, r = Ok s.

(** The characters of [str(n)]: decimal digits and the minus sign. *)
Definition decimal_char (c : ascii) : Prop :=
  Py.between 48 57 c = true ∨ c = "-"%char.

(** The label group of a match: absent, or a label name and a colon. *)
Definition is_label (label : option str) : Prop :=
  label = None ∨ ∃ X, label_name X ∧ label = Some (X ++ ":").

(** How a label is written in front of an instruction in a source line. *)
Definition label_prefix (label : option str) : str :=
  match label with
  | Some l => l ++ " "
  | None => ""
  end.


(** The suffixes of [line_re]. *)
Definition args_re : Re.regex :=
  Re.Opt (Re.Cls Py.isspace) ;;; Re.Grp 3 (Re.Star Py.isdot)
  ;;; Re.Opt (Re.Cls Py.isspace).
Definition op_re : Re.regex :=
  Re.Grp 2 (Re.Opt (Re.Chr ".") ;;; Re.Plus Py.isword) ;;; args_re.
Definition instr_re : Re.regex := Re.Opt (Re.Plus Py.isspace) ;;; op_re.
Definition label_re : Re.regex :=
  Re.Opt (Re.Grp 1 (Re.Plus Py.isword ;;; Re.Chr ":")) ;;; instr_re.

(** The groups set by the mnemonic and the operands. *)
Definition op_groups (g : gmap nat str) (s : str) : option (gmap nat str) :=
  match op_at s with
  | Some (op, rest) => Some (<[3%nat := args_at rest]> (<[2%nat := op]> g))
  | None => None
  end.

(** *** Notions for the further properties *)

(** A mnemonic as the pattern captures one: word characters, at least
    one, after an optional dot. *)
Definition is_mnemonic (op : str) : Prop :=
  ∃ w, w ≠ [] ∧ Forall (λ c, Py.isword c = true) w
       ∧ (op = w ∨ op = "."%char :: w).

(** After its leading white space the line starts with a word character,
    or with a dot and a word character. *)
Definition starts_instruction (s : str) : bool :=
  match drop_while Py.isspace s with
  | c :: t =>
      if bool_decide (c = "."%char) then
        match t with
        | d :: _ => Py.isword d
        | [] => false
        end
      else Py.isword c
  | [] => false
  end.

(** A line the expander leaves as it is: the pattern matches it and its
    mnemonic is neither [.space] nor [movi]. *)
Definition primitive (l : str) : Prop :=
  ∃ m, line_match l = Some m ∧ m2 m ≠ ".space" ∧ m2 m ≠ "movi".

(** ** The command line: [main] *)

(** The line boundaries of [str.splitlines] among the code points below
    256: LF, VT, FF, CR, FS, GS, RS and NEL. *)
Definition islinebreak (c : ascii) : bool :=
  Py.between 10 13 c || Py.between 28 30 c || Py.between 133 133 c.

(** [s.splitlines()], with the line read so far in [cur], last character
    first.  CR followed by LF is one boundary; no empty line is returned
    after the last boundary. *)
Fixpoint splitlines_from (cur s : str) : list str :=
  match s with
  | [] => match cur with
          | [] => []
          | _ => [rev cur]
          end
  | c :: s' =>
      if islinebreak c then
        rev cur ::
          match s' with
          | d :: s'' =>
              if bool_decide (c = "013"%char) && bool_decide (d = "010"%char)
              then splitlines_from [] s''
              else splitlines_from [] s'
          | [] => []
          end
      else splitlines_from (c :: cur) s'
  end.

Definition splitlines (s : str) : list str := splitlines_from [] s.

(** The exceptions that can end [main].  [open] and [read] fail as the
    environment decides, the payload is the path. *)
Inductive main_exn : Type :=
| OSError_on (path : str)
    (* raised by open(path), f.read() or open(path, "w") *)
| Escaped (e : exn)
    (* raised by assemble_code *)
| TypeError_join_not_iterable
    (* can only join an iterable *)
| TypeError_join_item (i : nat).
    (* sequence item i: expected str instance, NoneType found *)

(** The strings of a list that [join] accepts, or the index of its first
    item that is not a string. *)
Fixpoint join_items (i : nat) (items : list (option str)) : nat + list str :=
  match items with
  | [] => inr []
  | None :: _ => inl i
  | Some s :: items' =>
      match join_items (S i) items' with
      | inl k => inl k
      | inr l => inr (s :: l)
      end
  end.

(** [sep.join(l)] on a list of strings. *)
Definition join_strs (sep : str) (l : list str) : str :=
  match l with
  | [] => []
  | s :: l' => s ++ mjoin ((λ t, sep ++ t) <$> l')
  end.

(** [sep.join(x)] where [x] is what [assemble_code] returned. *)
Definition join (sep : str) (x : option (list (option str)))
    : main_exn + str :=
  match x with
  | None => inl TypeError_join_not_iterable
  | Some items =>
      match join_items 0 items with
      | inl i => inl (TypeError_join_item i)
      | inr l => inr (join_strs sep l)
      end
  end.

(** What [main] does to its environment, in the order in which it does
    it. *)
Inductive action : Type :=
| Print_missing_arguments         (* print("Missing arguments") *)
| Read_file (path : str)               (* open(path) and f.read() returned *)
| Truncate_file (path : str)           (* open(path, "w") returned: the file
                                     exists and is empty *)
| Console (e : event)             (* a print of assemble_code *)
| Write_file (path : str) (text : str). (* f.write(text) *)

Section main.

(** The environment.  [read_text path] is the text [open(path).read()]
    returns, [None] when [open] or [read] raises; [writable path] tells
    whether [open(path, "w")] succeeds.  A write to a file that was
    opened is taken to succeed. *)
Variable read_text : str → option str.
Variable writable : str → bool.

(** [main()] with [sys.argv = argv]: the exception that ends it, if any,
    and what it did. *)
Definition main (argv : list str) : option main_exn * list action :=
  match argv with
  | _ :: source :: rest =>
      match read_text source with
      | None => (Some (OSError_on source), [])
      | Some text =>
          let code := splitlines text in
          let outfile :=
            match rest with
            | out :: _ => out                         (* sys.argv[2] *)
            | [] => (Py.partition source ".").1.1     (* IndexError *)
            end in
          if writable outfile then
            let '(r, out) := assemble_code code in
            let before :=
              Read_file source :: Truncate_file outfile
                :: (Console <$> out) in
            match r with
            | Raise e => (Some (Escaped e), before)
            | Ok x =>
                match join ["010"%char] x with
                | inl e => (Some e, before)
                | inr text => (None, before ++ [Write_file outfile text])
                end
            end
          else (Some (OSError_on outfile), [Read_file source])
      end
  | _ => (None, [Print_missing_arguments])            (* len(sys.argv) <= 1 *)
  end.

End main.

(** * Properties *)

(** ** Unknown mnemonics *)

Ltac known_mnemonic Hop H :=
  exfalso; apply Hop;
  first [ rewrite H
        | repeat (apply elem_of_cons in H as [H | H]; [rewrite H |]);
          try (by apply elem_of_nil in H) ];
  apply (bool_decide_unpack _); by vm_compute.

Lemma assemble_line_unknown (line : str) (m : groups) :
  line_match line = Some m →
  m2 m ∉ recognized →
  assemble_line line = Ok None.
Proof.
  intros Hm Hop. unfold assemble_line. rewrite Hm. cbn [bind subscript].
  repeat (case_bool_decide as H; [known_mnemonic Hop H |]; clear H).
  reflexivity.
Qed.

(** C1.  The line [foo 1,2] has the mnemonic [foo], which is none of the
    recognised operations.  [assemble_line] raises nothing on it: it falls
    through its chain of tests and returns [None], and [assemble_code]
    appends that [None] to the machine code. *)
Theorem unknown_mnemonic_returns_None :
  line_match "foo 1,2" = Some (Groups None "foo" "1,2")
  ∧ ("foo" ∉ recognized)
  ∧ assemble_line "foo 1,2" = Ok None
  ∧ assemble_code ["add 1,2,3"; "foo 1,2"]
    = (Ok (Some [Some "0000010100000011"; None]),
       [Assembling "add 1,2,3"; Printed (Some "0000010100000011");
        Assembling "foo 1,2"; Printed None]).
Proof.
  split; [by vm_compute|]. split; [|split; by vm_compute].
  intros H. apply (bool_decide_pack _) in H. by vm_compute in H.
Qed.

(** ** The preprocessor *)

Lemma has_code_spec (line : str) :
  has_code line = negb (Py.startswith (Py.strip line) "#").
Proof.
  unfold has_code. case_bool_decide as H; [|by rewrite orb_false_r].
  rewrite H. reflexivity.
Qed.

(** What the preprocessor keeps: the trimmed form of every line whose
    trimmed form does not start with the comment marker; that includes
    the lines whose trimmed form is empty. *)
Lemma preprocess_spec (code : list str) :
  preprocess code
  = filter (λ l, Py.startswith l "#" = false) (Py.strip <$> code).
Proof.
  unfold preprocess. induction code as [|l code IH]; [done|].
  rewrite fmap_cons, !filter_cons, <- IH.
  destruct (decide (has_code l = true)) as [H|H];
    destruct (decide (Py.startswith (Py.strip l) "#" = false)) as [H'|H'];
    try done; exfalso; rewrite has_code_spec in H;
    destruct (Py.startswith (Py.strip l) "#"); simpl in H; congruence.
Qed.

(** C5.  A blank line is not dropped: [has_code] answers [True] for it,
    against its docstring, so the preprocessor hands its trimmed form, the
    empty string, to the expander, where the pattern does not match and
    the subscript of the missing match object raises [TypeError]. *)
Theorem blank_line_is_kept :
  has_code "   " = true
  ∧ has_code "" = true
  ∧ has_code "  # a comment" = false
  ∧ preprocess ["  # a comment"; "   "; " halt "] = [""; "halt"]
  ∧ assemble_code ["   "; "halt"] = (Raise TypeError_not_subscriptable, []).
Proof. repeat split; by vm_compute. Qed.

(** ** The expander: [.space] *)

Lemma convert_loop_app (code newcode : list str) :
  convert_loop code newcode
  = (new <- convert_loop code [] ;; Ok (newcode ++ new)).
Proof.
  revert newcode. induction code as [|l code IH]; intros newcode; simpl.
  - by rewrite app_nil_r.
  - destruct (convert_line l) as [new|e]; simpl; [|done].
    rewrite IH, (IH new). destruct (convert_loop code []); simpl; [|done].
    by rewrite app_assoc.
Qed.

Lemma convert_pseudoinstructions_cons (line : str) (code : list str) :
  convert_pseudoinstructions (line :: code)
  = (new <- convert_line line ;;
     rest <- convert_pseudoinstructions code ;;
     Ok (new ++ rest)).
Proof.
  unfold convert_pseudoinstructions. simpl.
  destruct (convert_line line) as [new|e]; simpl; [|done].
  apply convert_loop_app.
Qed.

Lemma convert_pseudoinstructions_single (line : str) :
  convert_pseudoinstructions [line] = convert_line line.
Proof.
  rewrite convert_pseudoinstructions_cons.
  destruct (convert_line line) as [new|e]; simpl; [|done].
  by rewrite app_nil_r.
Qed.

(** [.space N] with [N] at least 1 becomes [N] lines, the first with the
    label of the original line and the others without. *)
Lemma convert_space (line : str) (m : groups) (n : Z) :
  line_match line = Some m →
  m2 m = ".space" →
  Py.int (m3 m) 10 = Ok n →
  convert_line line
  = Ok ((default "" (m1 m) ++ " .fill 0")
          :: replicate (Z.to_nat (n - 1)) ".fill 0").
Proof.
  intros Hm Hop Hn. unfold convert_line. rewrite Hm. simpl.
  rewrite Hop, Hn. reflexivity.
Qed.

Lemma convert_space_length (line : str) (m : groups) (n : Z) (new : list str) :
  line_match line = Some m →
  m2 m = ".space" →
  Py.int (m3 m) 10 = Ok n →
  convert_line line = Ok new →
  Z.of_nat (length new) = Z.max n 1.
Proof.
  intros Hm Hop Hn. rewrite (convert_space _ _ _ Hm Hop Hn). intros [= <-].
  simpl. rewrite length_replicate. lia.
Qed.

(** C4.  [.space 0] becomes one [.fill 0], not none: the first [.fill 0]
    is appended before [N] is looked at, and the loop adds [N - 1] more.
    For [N = 3] with a label the expansion is as the claim says. *)
Theorem space_zero_emits_one_fill :
  convert_pseudoinstructions [".space 0"] = Ok [" .fill 0"]
  ∧ convert_pseudoinstructions ["L: .space 0"] = Ok ["L: .fill 0"]
  ∧ convert_pseudoinstructions ["L: .space 3"]
    = Ok ["L: .fill 0"; ".fill 0"; ".fill 0"]
  ∧ assemble_code [".space 0"]
    = (Ok (Some [Some "0000000000000000"]),
       [Assembling " .fill 0"; Printed (Some "0000000000000000")]).
Proof. repeat split; by vm_compute. Qed.

(** ** The loop of [assemble_code] *)

Lemma assemble_loop_app (pre rest : list str) (ws mc : list (option str))
    (out : list event) :
  Forall2 (λ l w, assemble_line l = Ok w) pre ws →
  assemble_loop (pre ++ rest) mc out
  = assemble_loop rest (mc ++ ws) (out ++ printed pre ws).
Proof.
  intros H. revert mc out.
  induction H as [|l w pre ws Hl _ IH]; intros mc out; simpl.
  - unfold printed. simpl. by rewrite !app_nil_r.
  - rewrite Hl, IH. unfold printed. simpl.
    by rewrite <- !app_assoc.
Qed.

Lemma assemble_loop_Some (code : list str) (mc ws : list (option str))
    (out out' : list event) :
  assemble_loop code mc out = (Some ws, out') →
  ∃ ws', ws = mc ++ ws' ∧ Forall2 (λ l w, assemble_line l = Ok w) code ws'.
Proof.
  revert mc out. induction code as [|l code IH]; intros mc out; simpl.
  - intros [= <- _]. exists []. by rewrite app_nil_r.
  - destruct (assemble_line l) as [w|e] eqn:Hl; [|done].
    intros (ws' & -> & H)%IH. exists (w :: ws').
    rewrite <- app_assoc. split; [done|]. by constructor.
Qed.

Lemma assemble_loop_all (code : list str) (ws mc : list (option str))
    (out : list event) :
  Forall2 (λ l w, assemble_line l = Ok w) code ws →
  assemble_loop code mc out = (Some (mc ++ ws), out ++ printed code ws).
Proof.
  intros H. rewrite <- (app_nil_r code) at 1.
  by rewrite (assemble_loop_app _ _ _ _ _ H).
Qed.

Lemma assemble_code_all (code expanded : list str) (ws : list (option str)) :
  convert_pseudoinstructions (preprocess code) = Ok expanded →
  Forall2 (λ l w, assemble_line l = Ok w) expanded ws →
  assemble_code code = (Ok (Some ws), printed expanded ws).
Proof.
  intros Hexp Hall. unfold assemble_code. rewrite Hexp.
  by rewrite (assemble_loop_all _ _ _ _ Hall).
Qed.

(** C9.  When the expanded program is [pre ++ line :: post], every line
    of [pre] assembles and [line] raises, [assemble_code] returns [None]
    and no list of words, and what it printed ends with the error on
    [line]: no line of [post] was assembled.  Conversely a list of words
    is only returned when every expanded line assembled, one word per
    line. *)
Theorem assemble_code_fail_fast (code pre post : list str) (line : str)
    (ws : list (option str)) (e : exn) :
  convert_pseudoinstructions (preprocess code) = Ok (pre ++ line :: post) →
  Forall2 (λ l w, assemble_line l = Ok w) pre ws →
  assemble_line line = Raise e →
  assemble_code code
  = (Ok None, printed pre ws ++ [Assembling line; ErrorOn line e])
  ∧ ∀ code' words,
      (assemble_code code').1 = Ok (Some words) →
      ∃ expanded,
        convert_pseudoinstructions (preprocess code') = Ok expanded
        ∧ Forall2 (λ l w, assemble_line l = Ok w) expanded words.
Proof.
  intros Hexp Hpre Hline. split.
  - unfold assemble_code. rewrite Hexp.
    rewrite (assemble_loop_app _ _ _ _ _ Hpre). simpl. by rewrite Hline.
  - intros code' words. unfold assemble_code.
    destruct (convert_pseudoinstructions (preprocess code'))
      as [expanded|e']; [|done].
    destruct (assemble_loop expanded [] []) as [r out] eqn:Hloop.
    simpl. intros [= ->]. exists expanded. split; [done|].
    by apply assemble_loop_Some in Hloop as (ws' & -> & H).
Qed.

Lemma assemble_code_fail_fast_witness :
  assemble_code ["add 1,2,3"; "add 1,2,8"; "halt"]
  = (Ok None,
     [Assembling "add 1,2,3"; Printed (Some "0000010100000011");
      Assembling "add 1,2,8";
      ErrorOn "add 1,2,8" (ValueError_out_of_range 8 0 7)]).
Proof.
  apply (assemble_code_fail_fast
           ["add 1,2,3"; "add 1,2,8"; "halt"]
           ["add 1,2,3"] ["halt"] "add 1,2,8"
           [Some "0000010100000011"] (ValueError_out_of_range 8 0 7)).
  - by vm_compute.
  - repeat constructor.
  - by vm_compute.
Defined.

(** ** The label dictionary *)

Lemma partition_app_sep (a b : str) (sep : ascii) :
  sep ∉ a → Py.partition (a ++ sep :: b) sep = (a, [sep], b).
Proof.
  induction a as [|c a IH]; simpl.
  - intros _. by rewrite bool_decide_eq_true_2.
  - intros [Hc Ha]%not_elem_of_cons.
    rewrite bool_decide_eq_false_2 by done. by rewrite (IH Ha).
Qed.

Lemma partition_no_sep (s : str) (sep : ascii) :
  sep ∉ s → Py.partition s sep = (s, [], []).
Proof.
  induction s as [|c s IH]; [done|].
  intros [Hc Hs]%not_elem_of_cons. simpl.
  rewrite bool_decide_eq_false_2 by done. by rewrite (IH Hs).
Qed.

Lemma endswith_snoc (s : str) (c d : ascii) :
  Py.endswith (s ++ [c]) [d] = bool_decide (d = c).
Proof.
  unfold Py.endswith. rewrite rev_app_distr. simpl.
  destruct (rev s); apply andb_true_r.
Qed.

Lemma word_notin (X : str) (c : ascii) :
  Forall (λ x, Py.isword x = true) X → Py.isword c = false → c ∉ X.
Proof.
  intros HX Hc Hin. rewrite Forall_forall in HX.
  specialize (HX c Hin). congruence.
Qed.

Lemma label_of_colon_head (X t : str) :
  Forall (λ x, Py.isword x = true) X →
  label_of (X ++ ":" ++ t)
  = if Py.endswith (Py.partition (X ++ ":" ++ t) " ").1.1 ":"
    then Some X else None.
Proof.
  intros HX. unfold label_of.
  change (":" ++ t) with (":"%char :: t).
  by rewrite (partition_app_sep X t ":") by (by apply word_notin).
Qed.

Lemma label_of_blank (X t : str) :
  Forall (λ x, Py.isword x = true) X →
  label_of (X ++ ":" ++ " " ++ t) = Some X.
Proof.
  intros HX. rewrite label_of_colon_head by done.
  replace (X ++ ":" ++ " " ++ t) with ((X ++ ":") ++ " "%char :: t)
    by (by rewrite <- app_assoc).
  rewrite partition_app_sep.
  - simpl. by rewrite endswith_snoc.
  - intros [Hin | Hin]%elem_of_app.
    + by apply (word_notin X " "%char HX).
    + by apply list_elem_of_singleton in Hin.
Qed.

Lemma LABELS_snoc (code : list str) (line : str) :
  LABELS (code ++ [line])
  = match label_of line with
    | Some X => <[X := length code]> (LABELS code)
    | None => LABELS code
    end.
Proof.
  unfold LABELS, enumerate, dict, label_of.
  rewrite imap_app, filter_app, map_app, foldl_app. simpl.
  rewrite Nat.add_0_r, filter_cons, filter_nil. simpl.
  destruct (decide _) as [H|H]; simpl.
  - by rewrite H.
  - by apply not_true_is_false in H as ->.
Qed.

Lemma carries_snoc (code : list str) (line : str) (l : nat) (X : str) :
  carries (code ++ [line]) l X
  ↔ carries code l X ∨ (l = length code ∧ label_of line = Some X).
Proof.
  unfold carries. split.
  - intros (x & Hl & HX).
    apply lookup_app_Some in Hl as [Hl | [Hge Hl]]; [left; eauto|].
    apply list_lookup_singleton_Some in Hl as [Hl ->].
    right. split; [lia | done].
  - intros [(x & Hl & HX) | [-> HX]].
    + exists x. split; [|done]. by apply lookup_app_l_Some.
    + exists line. split; [|done].
      rewrite lookup_app_r, Nat.sub_diag; [done | lia].
Qed.

Lemma carries_lt (code : list str) (l : nat) (X : str) :
  carries code l X → (l < length code)%nat.
Proof. intros (x & Hl & _). by eapply lookup_lt_Some. Qed.

(** [LABELS] holds, for each label, the index of the last line that
    carries it, and nothing for a name no line carries. *)
Lemma LABELS_spec (code : list str) (X : str) :
  match LABELS code !! X with
  | Some k => carries code k X ∧ ∀ l, carries code l X → (l ≤ k)%nat
  | None => ∀ l, ¬ carries code l X
  end.
Proof.
  induction code as [|line code IH] using rev_ind.
  - unfold LABELS, dict. simpl. rewrite lookup_empty.
    intros l (x & Hl & _). done.
  - rewrite LABELS_snoc.
    destruct (label_of line) as [Y|] eqn:HY.
    + destruct (decide (Y = X)) as [->|Hne].
      * rewrite lookup_insert_eq. split.
        -- apply carries_snoc. by right.
        -- intros l Hl%carries_lt. rewrite length_app in Hl. simpl in Hl. lia.
      * rewrite lookup_insert_ne by done.
        destruct (LABELS code !! X) as [k|].
        -- destruct IH as [Hk Hmax]. split.
           ++ apply carries_snoc. by left.
           ++ intros l [Hl | [_ HX]]%carries_snoc;
                [by apply Hmax | congruence].
        -- intros l [Hl | [_ HX]]%carries_snoc;
             [by apply (IH l) | congruence].
    + destruct (LABELS code !! X) as [k|].
      * destruct IH as [Hk Hmax]. split.
        -- apply carries_snoc. by left.
        -- intros l [Hl | [_ HX]]%carries_snoc;
             [by apply Hmax | congruence].
      * intros l [Hl | [_ HX]]%carries_snoc;
          [by apply (IH l) | congruence].
Qed.

(** C2, as the code has it.  A line contributes the key [X] to the
    dictionary when its first blank-separated field ends with a colon and
    [X] is its text before the first colon; every line [X: rest], a name
    [X] of word characters, a colon and a blank, does.  When the
    expansion of a program succeeds and two different expanded lines
    contribute the same key [X], nothing fails.  The dictionary maps [X]
    to the index of the last line that contributes it.  And assembly
    proceeds: [assemble_code] raises nothing, its result and what it
    prints are those of its loop over all the expanded lines, and when
    every line assembles it returns all the words. *)
Theorem duplicate_label_last_wins (source code : list str) (X : str)
    (i j : nat) :
  convert_pseudoinstructions (preprocess source) = Ok code →
  i ≠ j →
  carries code i X →
  carries code j X →
  (∃ k, LABELS code !! X = Some k
        ∧ carries code k X
        ∧ (i ≤ k)%nat ∧ (j ≤ k)%nat
        ∧ ∀ l, carries code l X → (l ≤ k)%nat)
  ∧ assemble_code source
    = (Ok (assemble_loop code [] []).1, (assemble_loop code [] []).2)
  ∧ (∀ ws, Forall2 (λ l w, assemble_line l = Ok w) code ws →
           assemble_code source = (Ok (Some ws), printed code ws))
  ∧ (∀ Y rest n, label_name Y →
                 code !! n = Some (Y ++ ": " ++ rest) →
                 carries code n Y).
Proof.
  intros Hexp _ Hi Hj. split; [|split; [|split]].
  - pose proof (LABELS_spec code X) as H.
    destruct (LABELS code !! X) as [k|].
    + destruct H as [Hk Hmax]. exists k. repeat split; auto.
    + by destruct (H i).
  - unfold assemble_code. rewrite Hexp.
    by destruct (assemble_loop code [] []).
  - intros ws Hall. by apply assemble_code_all.
  - intros Y rest n [_ HY] Hn. exists (Y ++ ": " ++ rest).
    split; [done|]. by apply (label_of_blank Y rest).
Qed.

Lemma duplicate_label_last_wins_witness :
  (∃ k, LABELS ["L: add 1,2,3"; "halt"; "L: halt"] !! "L" = Some k
        ∧ carries ["L: add 1,2,3"; "halt"; "L: halt"] k "L"
        ∧ (0 ≤ k)%nat ∧ (2 ≤ k)%nat
        ∧ ∀ l, carries ["L: add 1,2,3"; "halt"; "L: halt"] l "L" →
               (l ≤ k)%nat)
  ∧ assemble_code ["L: add 1,2,3"; "# again"; "  halt"; "L: halt"]
    = (Ok (assemble_loop ["L: add 1,2,3"; "halt"; "L: halt"] [] []).1,
       (assemble_loop ["L: add 1,2,3"; "halt"; "L: halt"] [] []).2)
  ∧ (∀ ws,
       Forall2 (λ l w, assemble_line l = Ok w)
         ["L: add 1,2,3"; "halt"; "L: halt"] ws →
       assemble_code ["L: add 1,2,3"; "# again"; "  halt"; "L: halt"]
       = (Ok (Some ws), printed ["L: add 1,2,3"; "halt"; "L: halt"] ws))
  ∧ (∀ Y rest n,
       label_name Y →
       ["L: add 1,2,3"; "halt"; "L: halt"] !! n = Some (Y ++ ": " ++ rest) →
       carries ["L: add 1,2,3"; "halt"; "L: halt"] n Y).
Proof.
  apply (duplicate_label_last_wins
           ["L: add 1,2,3"; "# again"; "  halt"; "L: halt"]
           ["L: add 1,2,3"; "halt"; "L: halt"] "L" 0 2).
  - by vm_compute.
  - lia.
  - eexists. split; [reflexivity | by vm_compute].
  - eexists. split; [reflexivity | by vm_compute].
Defined.

(** C2, as stated, fails on this program: both lines carry the label
    [L], no error is raised, the dictionary keeps the second index and
    the program is assembled. *)
Lemma duplicate_label_accepted :
  carries ["L: add 1,2,3"; "L: halt"] 0 "L"
  ∧ carries ["L: add 1,2,3"; "L: halt"] 1 "L"
  ∧ convert_pseudoinstructions (preprocess ["L: add 1,2,3"; "L: halt"])
    = Ok ["L: add 1,2,3"; "L: halt"]
  ∧ LABELS ["L: add 1,2,3"; "L: halt"] = {[ "L" := 1%nat ]}
  ∧ (assemble_code ["L: add 1,2,3"; "L: halt"]).1
    = Ok (Some [Some "0000010100000011"; Some "1110000000000001"]).
Proof.
  split; [eexists; split; [reflexivity | by vm_compute]|].
  split; [eexists; split; [reflexivity | by vm_compute]|].
  repeat split; by vm_compute.
Qed.

(** The dictionary does not see a label that is not followed by a
    blank, though the pattern does: after a tab, or with the mnemonic
    right after the colon, the line contributes no key, and two such
    lines with the same label leave the dictionary empty. *)
Remark label_without_blank :
  line_match ("L:" ++ "009"%char :: "add 1,2,3")
  = Some (Groups (Some "L:") "add" "1,2,3")
  ∧ LABELS ["L:" ++ "009"%char :: "add 1,2,3"; "L:" ++ "009"%char :: "halt"]
    = ∅
  ∧ line_match "L:add 1,2,3" = Some (Groups (Some "L:") "add" "1,2,3")
  ∧ LABELS ["L:add 1,2,3"; "L:halt"] = ∅.
Proof. repeat split; by vm_compute. Qed.

(** ** Binary numerals *)

Lemma bin_pos_acc (p : positive) (acc : str) :
  Py.bin_pos p acc = Py.bin_pos p [] ++ acc.
Proof.
  revert acc. induction p as [p IH|p IH|]; intros acc; simpl; [| |done].
  - rewrite (IH ("1"%char :: acc)), (IH ["1"%char]).
    by rewrite <- app_assoc.
  - rewrite (IH ("0"%char :: acc)), (IH ["0"%char]).
    by rewrite <- app_assoc.
Qed.

Lemma bin_pos_head (p : positive) :
  ∃ s, Py.bin_pos p [] = "1"%char :: s.
Proof.
  induction p as [p [s IH]|p [s IH]|]; simpl; [| |by eexists].
  - rewrite bin_pos_acc, IH. by eexists.
  - rewrite bin_pos_acc, IH. by eexists.
Qed.

Lemma bin_pos_binary (p : positive) : binary (Py.bin_pos p []).
Proof.
  unfold binary.
  induction p as [p IH|p IH|]; simpl; [| |by repeat constructor].
  - rewrite bin_pos_acc. apply Forall_app. split; [done|].
    by repeat constructor.
  - rewrite bin_pos_acc. apply Forall_app. split; [done|].
    by repeat constructor.
Qed.

Lemma unsigned_value_snoc (s : str) (c : ascii) :
  unsigned_value (s ++ [c])
  = 2 * unsigned_value s + (if bool_decide (c = "1"%char) then 1 else 0).
Proof. unfold unsigned_value. by rewrite foldl_app. Qed.

Lemma unsigned_value_bin_pos (p : positive) :
  unsigned_value (Py.bin_pos p []) = Z.pos p.
Proof.
  induction p as [p IH|p IH|]; simpl; [| |done].
  - rewrite bin_pos_acc, unsigned_value_snoc, IH. simpl. lia.
  - rewrite bin_pos_acc, unsigned_value_snoc, IH. simpl. lia.
Qed.

Lemma unsigned_value_zeros (k : nat) (s : str) :
  unsigned_value (replicate k "0"%char ++ s) = unsigned_value s.
Proof.
  unfold unsigned_value. rewrite foldl_app. f_equal.
  induction k as [|k IH]; simpl; [done|].
  by change (2 * 0 + 0) with 0.
Qed.

Lemma length_bin_pos (p : positive) :
  length (Py.bin_pos p []) = Pos.size_nat p.
Proof.
  induction p as [p IH|p IH|]; simpl; [| |done].
  - rewrite bin_pos_acc, length_app, IH. simpl. lia.
  - rewrite bin_pos_acc, length_app, IH. simpl. lia.
Qed.

Lemma size_nat_le (p : positive) (n : nat) :
  (Pos.size_nat p ≤ n)%nat ↔ Z.pos p < 2 ^ Z.of_nat n.
Proof.
  revert n. induction p as [p IH|p IH|]; intros [|n]; simpl Pos.size_nat.
  - change (2 ^ Z.of_nat 0) with 1. lia.
  - rewrite Nat2Z.inj_succ, Z.pow_succ_r by lia.
    specialize (IH n). lia.
  - change (2 ^ Z.of_nat 0) with 1. lia.
  - rewrite Nat2Z.inj_succ, Z.pow_succ_r by lia.
    specialize (IH n). lia.
  - change (2 ^ Z.of_nat 0) with 1. lia.
  - rewrite Nat2Z.inj_succ, Z.pow_succ_r by lia.
    pose proof (Z.pow_pos_nonneg 2 (Z.of_nat n)). lia.
Qed.

(** The digits of [bin(n)] after the prefix [0b], for a positive [n] of
    exactly [bits] bits. *)
Lemma bin_exact_width (n bits : Z) :
  1 ≤ bits →
  2 ^ (bits - 1) ≤ n < 2 ^ bits →
  ∃ s, drop 2 (Py.bin n) = "1"%char :: s
       ∧ Z.of_nat (length ("1"%char :: s)) = bits
       ∧ binary ("1"%char :: s)
       ∧ unsigned_value ("1"%char :: s) = n.
Proof.
  intros Hbits [Hlo Hhi].
  assert (0 < n) as Hpos.
  { pose proof (Z.pow_pos_nonneg 2 (bits - 1)). lia. }
  destruct n as [|p|p]; try lia. simpl.
  destruct (bin_pos_head p) as [s Hs]. exists s. rewrite <- Hs.
  split; [done|]. split; [|split].
  - replace (S (length s)) with (length (Py.bin_pos p []))
      by (by rewrite Hs).
    rewrite length_bin_pos.
    assert (Pos.size_nat p ≤ Z.to_nat bits)%nat as H1.
    { apply size_nat_le. by rewrite Z2Nat.id by lia. }
    assert (¬ (Pos.size_nat p ≤ Z.to_nat (bits - 1))%nat) as H2.
    { rewrite size_nat_le, Z2Nat.id by lia. lia. }
    lia.
  - apply bin_pos_binary.
  - apply unsigned_value_bin_pos.
Qed.

(** The digits of [bin(n)] after the prefix, padded by [zfill], for
    [0 <= n < 2 ** bits]. *)
Lemma bin_zfill_width (n bits : Z) :
  1 ≤ bits →
  0 ≤ n < 2 ^ bits →
  ∃ k s, Py.zfill (drop 2 (Py.bin n)) bits = replicate k "0"%char ++ s
         ∧ Z.of_nat (k + length s) = bits
         ∧ binary s
         ∧ unsigned_value s = n
         ∧ (n < 2 ^ (bits - 1) → (0 < k)%nat ∨ s = "0").
Proof.
  intros Hbits [Hlo Hhi]. destruct n as [|p|p]; try lia.
  - exists (Z.to_nat (bits - 1)), "0". simpl.
    repeat split; [lia | by repeat constructor | by right].
  - simpl. destruct (bin_pos_head p) as [s Hs].
    exists (Z.to_nat (bits - Z.of_nat (Pos.size_nat p))), (Py.bin_pos p []).
    assert (Pos.size_nat p ≤ Z.to_nat bits)%nat as H1.
    { apply size_nat_le. by rewrite Z2Nat.id by lia. }
    split; [|split; [|split; [|split]]].
    + unfold Py.zfill. rewrite !drop_0, length_bin_pos, Hs.
      by rewrite bool_decide_eq_false_2 by (intros [[=]|[=]]).
    + rewrite length_bin_pos. lia.
    + apply bin_pos_binary.
    + apply unsigned_value_bin_pos.
    + intros Hsmall. left.
      assert (Pos.size_nat p ≤ Z.to_nat (bits - 1))%nat as H2.
      { apply size_nat_le. by rewrite Z2Nat.id by lia. }
      lia.
Qed.

Lemma lxor_bitmask (n bits : Z) :
  0 ≤ bits →
  0 ≤ n < 2 ^ bits →
  Z.lxor (2 ^ bits - 1) n = 2 ^ bits - 1 - n.
Proof.
  intros Hbits [Hlo Hhi].
  replace (2 ^ bits - 1) with (Z.ones bits)
    by (rewrite Z.ones_equiv; lia).
  assert (Z.land n (Z.lxor (Z.ones bits) n) = 0) as Hland.
  { apply Z.bits_inj'. intros i Hi.
    rewrite Z.land_spec, Z.lxor_spec, Z.bits_0.
    destruct (Z.lt_ge_cases i bits) as [Hlt|Hge].
    - rewrite Z.ones_spec_low by lia. by destruct (Z.testbit n i).
    - destruct (Z.eq_dec n 0) as [->|Hn]; [by rewrite Z.bits_0|].
      rewrite (Z.bits_above_log2 n i); [done | lia |].
      assert (Z.log2 n < bits); [|lia].
      apply Z.log2_lt_pow2; lia. }
  apply Z.add_nocarry_lxor in Hland.
  rewrite (Z.lxor_comm (Z.ones bits) n) in Hland.
  rewrite <- Z.lxor_assoc, Z.lxor_nilpotent, Z.lxor_0_l in Hland.
  rewrite Z.lxor_comm. lia.
Qed.

(** ** The immediate encoder *)

Lemma imm_to_bin_out_of_range (num : str) (bits v : Z) (signed : bool) :
  parse_num num = Ok v →
  ¬ in_range bits signed v →
  imm_to_bin num bits signed
  = Raise (ValueError_out_of_range v
             (if signed then - 2 ^ (bits - 1) else 0)
             (if signed then 2 ^ (bits - 1) - 1 else 2 ^ bits - 1)).
Proof.
  intros Hnum Hout. unfold imm_to_bin. rewrite Hnum. simpl.
  unfold in_range in Hout. destruct signed.
  - replace (-1 * (2 ^ (bits - 1) - 1) - 1) with (- 2 ^ (bits - 1)) by lia.
    destruct (_ && _) eqn:Hin; [|done]. simpl. exfalso. apply Hout. lia.
  - destruct (_ && _) eqn:Hin; [|done]. exfalso. apply Hout. lia.
Qed.

Lemma imm_to_bin_unsigned (num : str) (bits v : Z) :
  1 ≤ bits →
  parse_num num = Ok v →
  0 ≤ v ≤ 2 ^ bits - 1 →
  ∃ s, imm_to_bin num bits false = Ok s
       ∧ Z.of_nat (length s) = bits
       ∧ binary s
       ∧ unsigned_value s = v.
Proof.
  intros Hbits Hnum Hv. unfold imm_to_bin. rewrite Hnum. simpl.
  replace ((0 <=? v) && (v <=? 2 ^ bits - 1)) with true by lia. simpl.
  replace (v <? 0) with false by lia.
  destruct (bin_zfill_width v bits Hbits) as (k & s & -> & Hlen & Hbin & Hval & _);
    [lia|].
  eexists. split; [done|]. split; [|split].
  - rewrite length_app, length_replicate. lia.
  - apply Forall_app. split; [|done].
    apply Forall_replicate. by left.
  - by rewrite unsigned_value_zeros.
Qed.

Lemma signed_value_nonneg (k : nat) (s : str) :
  (0 < k)%nat ∨ s = "0" →
  signed_value (replicate k "0"%char ++ s)
  = unsigned_value (replicate k "0"%char ++ s).
Proof.
  intros [Hk | ->].
  - destruct k as [|k]; [lia|]. done.
  - destruct k as [|k]; done.
Qed.

Lemma imm_to_bin_signed (num : str) (bits v : Z) :
  1 ≤ bits →
  parse_num num = Ok v →
  - 2 ^ (bits - 1) ≤ v ≤ 2 ^ (bits - 1) - 1 →
  ∃ s, imm_to_bin num bits true = Ok s
       ∧ Z.of_nat (length s) = bits
       ∧ binary s
       ∧ signed_value s = v.
Proof.
  intros Hbits Hnum Hv. unfold imm_to_bin. rewrite Hnum. simpl.
  replace ((-1 * (2 ^ (bits - 1) - 1) - 1 <=? v) && (v <=? 2 ^ (bits - 1) - 1))
    with true by lia.
  simpl.
  assert (2 ^ bits = 2 * 2 ^ (bits - 1)) as Hpow.
  { rewrite <- Z.pow_succ_r by lia. f_equal. lia. }
  destruct (Z.ltb_spec v 0) as [Hneg|Hpos].
  - rewrite lxor_bitmask by lia.
    destruct (bin_exact_width (2 ^ bits - 1 - - v + 1) bits Hbits)
      as (s & -> & Hlen & Hbin & Hval); [lia|].
    eexists. split; [done|]. split; [done|]. split; [done|].
    unfold signed_value. rewrite bool_decide_eq_true_2 by done.
    rewrite Hval, Hlen. lia.
  - destruct (bin_zfill_width v bits Hbits)
      as (k & s & -> & Hlen & Hbin & Hval & Hsmall); [lia|].
    eexists. split; [done|]. split; [|split].
    + rewrite length_app, length_replicate. lia.
    + apply Forall_app. split; [|done].
      apply Forall_replicate. by left.
    + rewrite signed_value_nonneg by (apply Hsmall; lia).
      by rewrite unsigned_value_zeros.
Qed.

(** Whatever [imm_to_bin] returns for a width of at least one bit is a
    string of exactly that many binary digits. *)
Lemma imm_to_bin_width (num : str) (bits : Z) (signed : bool) (s : str) :
  1 ≤ bits →
  imm_to_bin num bits signed = Ok s →
  Z.of_nat (length s) = bits ∧ binary s.
Proof.
  intros Hbits Hs.
  destruct (parse_num num) as [v|e] eqn:Hnum;
    [|by unfold imm_to_bin in Hs; rewrite Hnum in Hs].
  destruct signed.
  - destruct (decide (in_range bits true v)) as [Hin|Hout].
    + destruct (imm_to_bin_signed num bits v Hbits Hnum Hin)
        as (s' & Hs' & Hlen & Hbin & _).
      rewrite Hs in Hs'. by injection Hs' as <-.
    + by rewrite (imm_to_bin_out_of_range _ _ _ _ Hnum Hout) in Hs.
  - destruct (decide (in_range bits false v)) as [Hin|Hout].
    + destruct (imm_to_bin_unsigned num bits v Hbits Hnum Hin)
        as (s' & Hs' & Hlen & Hbin & _).
      rewrite Hs in Hs'. by injection Hs' as <-.
    + by rewrite (imm_to_bin_out_of_range _ _ _ _ Hnum Hout) in Hs.
Qed.

(** C6.  For a width [bits] of at least one bit and a literal [num] that
    denotes the integer [v]: when [v] is in the unsigned range, the
    unsigned encoding is a string of [bits] binary digits whose value as an
    unsigned numeral is [v]; when [v] is in the signed range, the signed
    encoding is a string of [bits] binary digits whose value as a
    two's-complement numeral is [v]. *)
Theorem imm_to_bin_roundtrip (num : str) (bits v : Z) :
  1 ≤ bits →
  parse_num num = Ok v →
  (0 ≤ v ≤ 2 ^ bits - 1 →
   ∃ s, imm_to_bin num bits false = Ok s
        ∧ Z.of_nat (length s) = bits
        ∧ binary s
        ∧ unsigned_value s = v)
  ∧ (- 2 ^ (bits - 1) ≤ v ≤ 2 ^ (bits - 1) - 1 →
     ∃ s, imm_to_bin num bits true = Ok s
          ∧ Z.of_nat (length s) = bits
          ∧ binary s
          ∧ signed_value s = v).
Proof.
  intros Hbits Hnum. split.
  - by apply imm_to_bin_unsigned.
  - by apply imm_to_bin_signed.
Qed.

(** ** Decimal literals *)

Lemma digits_step (base acc d : Z) (c : ascii) (s : str) :
  c ≠ "_"%char →
  Py.digit_value c = Some d →
  d < base →
  Py.digits base acc false (c :: s) = Py.digits base (acc * base + d) false s.
Proof.
  intros Hc Hd Hlt. simpl. rewrite bool_decide_eq_false_2 by done.
  rewrite Hd. by replace (d <? base) with true by lia.
Qed.

Ltac digit_step :=
  match goal with
  | |- Py.digits _ ?a false (?c :: ?s) = _ =>
      let v := eval vm_compute in (Py.code c - 48) in
      rewrite (digits_step 10 a v c s); [| done | done | done]
  end.

Lemma digits_of_uint_acc (d : Decimal.uint) (acc : positive) :
  Py.digits 10 (Z.pos acc) false
    (list_ascii_of_string (NilEmpty.string_of_uint d))
  = Some (Z.pos (Pos.of_uint_acc d acc)).
Proof.
  revert acc. induction d as [|d IH|d IH|d IH|d IH|d IH|d IH|d IH|d IH|d IH|d IH];
    intros acc; [done|..];
    cbn [NilEmpty.string_of_uint list_ascii_of_string Pos.of_uint_acc];
    digit_step; rewrite <- IH; f_equal; lia.
Qed.

Lemma digits_of_uint (d : Decimal.uint) :
  Py.digits 10 0 false (list_ascii_of_string (NilEmpty.string_of_uint d))
  = Some (Z.of_N (Pos.of_uint d)).
Proof.
  induction d as [|d IH|d IH|d IH|d IH|d IH|d IH|d IH|d IH|d IH|d IH];
    [done|..];
    cbn [NilEmpty.string_of_uint list_ascii_of_string Pos.of_uint];
    digit_step; [exact IH | apply digits_of_uint_acc ..].
Qed.

Lemma string_of_uint_chars (d : Decimal.uint) :
  Forall (λ c, Py.between 48 57 c = true)
    (list_ascii_of_string (NilEmpty.string_of_uint d)).
Proof.
  induction d; cbn [NilEmpty.string_of_uint list_ascii_of_string];
    by constructor.
Qed.

Lemma string_of_uint_cons (p : positive) :
  ∃ c s,
    list_ascii_of_string (NilZero.string_of_uint (Pos.to_uint p)) = c :: s
    ∧ list_ascii_of_string (NilEmpty.string_of_uint (Pos.to_uint p)) = c :: s.
Proof.
  pose proof (DecimalPos.Unsigned.to_uint_nonnil p) as Hnil.
  destruct (Pos.to_uint p) as [|d|d|d|d|d|d|d|d|d|d]; [done|..];
    by eexists _, _.
Qed.

(** What [str] writes for [n]: the digits of [|n|], after a minus sign
    when [n] is negative. *)
Lemma str_of_int_shape (n : Z) :
  ∃ c s,
    Py.str_of_int (Z.abs n) = c :: s
    ∧ Forall (λ c, Py.between 48 57 c = true) (c :: s)
    ∧ Py.digits 10 0 false (c :: s) = Some (Z.abs n)
    ∧ Py.str_of_int n = if n <? 0 then "-"%char :: c :: s else c :: s.
Proof.
  destruct n as [|p|p].
  - exists "0"%char, []. repeat split; by repeat constructor.
  - destruct (string_of_uint_cons p) as (c & s & H0 & H).
    exists c, s. split; [exact H0|]. split; [|split; [|exact H0]].
    + rewrite <- H. apply string_of_uint_chars.
    + by rewrite <- H, digits_of_uint, DecimalPos.Unsigned.of_to.
  - destruct (string_of_uint_cons p) as (c & s & H0 & H).
    exists c, s. split; [exact H0|].
    split; [|split; [|exact (f_equal (cons "-"%char) H0)]].
    + rewrite <- H. apply string_of_uint_chars.
    + by rewrite <- H, digits_of_uint, DecimalPos.Unsigned.of_to.
Qed.

Lemma str_of_int_chars (n : Z) : Forall decimal_char (Py.str_of_int n).
Proof.
  destruct (str_of_int_shape n) as (c & s & _ & Hall & _ & ->).
  assert (Forall decimal_char (c :: s)) as H.
  { eapply Forall_impl; [exact Hall|]. intros x Hx. by left. }
  destruct (n <? 0); [|done]. constructor; [by right | done].
Qed.

Lemma drop_while_false (p : ascii → bool) (s : str) :
  Forall (λ c, p c = false) s → drop_while p s = s.
Proof. destruct 1 as [|c s Hc _]; simpl; [done|]. by rewrite Hc. Qed.

Lemma decimal_char_not_space (c : ascii) :
  decimal_char c → Py.int_isspace c = false.
Proof.
  intros [H | ->]; [|done].
  unfold Py.int_isspace, Py.between in *. lia.
Qed.

Lemma startswith_false (sub s : str) (x : ascii) :
  x ∈ sub →
  x ∉ s →
  Py.startswith s sub = false.
Proof.
  revert s. induction sub as [|a sub IH]; intros s Hsub Hs;
    [by apply elem_of_nil in Hsub|].
  destruct s as [|b s]; [done|]. simpl.
  apply not_elem_of_cons in Hs as [Hxb Hs].
  apply elem_of_cons in Hsub as [-> | Hsub].
  - by rewrite bool_decide_eq_false_2.
  - rewrite (IH s Hsub Hs). apply andb_false_r.
Qed.

Lemma contains_false (sub s : str) (x : ascii) :
  x ∈ sub →
  x ∉ s →
  Py.contains sub s = false.
Proof.
  intros Hsub Hs. induction s as [|c s IH]; cbn [Py.contains].
  - by rewrite (startswith_false sub [] x).
  - rewrite (startswith_false sub (c :: s) x) by done.
    apply not_elem_of_cons in Hs as [_ Hs]. by rewrite IH.
Qed.

Lemma decimal_char_ne (c x : ascii) :
  decimal_char x →
  Py.between 48 57 c = false →
  c ≠ "-"%char →
  c ≠ x.
Proof. intros [H | ->] Hc Hm; congruence. Qed.

Lemma decimal_chars_notin (c : ascii) (s : str) :
  Forall decimal_char s →
  Py.between 48 57 c = false →
  c ≠ "-"%char →
  c ∉ s.
Proof.
  intros Hs Hc Hm Hin. rewrite Forall_forall in Hs.
  by apply (decimal_char_ne c c (Hs c Hin) Hc Hm).
Qed.

Lemma unsigned_literal_10 (s : str) :
  Py.unsigned_literal 10 s
  = match s with
    | [] => None
    | c :: _ =>
        if bool_decide (c = "_"%char) then None else Py.digits 10 0 false s
    end.
Proof.
  unfold Py.unsigned_literal. destruct s as [|z [|x s']]; [done | done |].
  change (10 =? 16) with false. change (10 =? 2) with false.
  cbn [andb orb]. by rewrite andb_false_r.
Qed.

(** Every integer has a literal: [str(n)] is read back as [n]. *)
Lemma int_str_of_int (n : Z) : Py.int (Py.str_of_int n) 10 = Ok n.
Proof.
  pose proof (str_of_int_chars n) as Hchars.
  assert (Forall (λ c, Py.int_isspace c = false) (Py.str_of_int n)) as Hsp.
  { eapply Forall_impl; [exact Hchars|]. apply decimal_char_not_space. }
  unfold Py.int. rewrite (drop_while_false _ _ Hsp).
  rewrite drop_while_false by (by apply Forall_rev).
  rewrite rev_involutive.
  destruct (str_of_int_shape n) as (c & s & _ & Hall & Hval & ->).
  assert (c ≠ "_"%char ∧ c ≠ "-"%char ∧ c ≠ "+"%char) as (Hu & Hm & Hp).
  { apply Forall_cons in Hall as [Hc _].
    repeat split; intros ->; by vm_compute in Hc. }
  assert (Py.unsigned_literal 10 (c :: s) = Some (Z.abs n)) as Hlit.
  { rewrite unsigned_literal_10. by rewrite bool_decide_eq_false_2. }
  destruct (Z.ltb_spec n 0).
  - rewrite bool_decide_eq_true_2 by done. rewrite Hlit. simpl.
    f_equal. lia.
  - rewrite !bool_decide_eq_false_2 by done. rewrite Hlit.
    f_equal. lia.
Qed.

Lemma parse_num_str_of_int (n : Z) : parse_num (Py.str_of_int n) = Ok n.
Proof.
  pose proof (str_of_int_chars n) as Hchars.
  unfold parse_num.
  rewrite (contains_false "0x" _ "x"%char);
    [| by repeat constructor
     | by apply decimal_chars_notin].
  rewrite (contains_false "0b" _ "b"%char);
    [| by repeat constructor
     | by apply decimal_chars_notin].
  apply int_str_of_int.
Qed.

Lemma imm_to_bin_roundtrip_witness :
  (∃ s, imm_to_bin "0x2a" 7 false = Ok s
        ∧ Z.of_nat (length s) = 7
        ∧ binary s
        ∧ unsigned_value s = 42)
  ∧ (∃ s, imm_to_bin "-3" 7 true = Ok s
          ∧ Z.of_nat (length s) = 7
          ∧ binary s
          ∧ signed_value s = -3).
Proof.
  split.
  - apply (imm_to_bin_roundtrip "0x2a" 7 42); [lia | by vm_compute | lia].
  - apply (imm_to_bin_roundtrip "-3" 7 (-3)); [lia | by vm_compute | lia].
Defined.

(** At the width 0 the unsigned encoder still writes one digit. *)
Remark imm_to_bin_width_zero : imm_to_bin "0" 0 false = Ok "0".
Proof. by vm_compute. Qed.

Lemma imm_to_bin_in_range (num : str) (bits v : Z) (signed : bool) :
  parse_num num = Ok v →
  in_range bits signed v →
  succeeds (imm_to_bin num bits signed).
Proof.
  intros Hnum Hin. unfold imm_to_bin. rewrite Hnum. simpl.
  unfold in_range in Hin.
  replace ((_ <=? v) && (v <=? _)) with true by (destruct signed; lia).
  simpl. destruct (v <? 0); by eexists.
Qed.

(** C7.  For a literal that denotes the integer [v], [imm_to_bin] raises
    its out-of-range error exactly when [v] is outside the interval of the
    requested width and signedness, and returns an encoding exactly when
    [v] is inside.  The literals of [2 ** bits] (unsigned) and of
    [2 ** (bits - 1)] (signed) are rejected; those of the two ends of each
    interval are accepted. *)
Theorem imm_to_bin_range_check (num : str) (bits v : Z) (signed : bool) :
  1 ≤ bits →
  parse_num num = Ok v →
  (out_of_range_error (imm_to_bin num bits signed)
   ↔ ¬ in_range bits signed v)
  ∧ (succeeds (imm_to_bin num bits signed) ↔ in_range bits signed v)
  ∧ out_of_range_error (imm_to_bin (Py.str_of_int (2 ^ bits)) bits false)
  ∧ out_of_range_error
      (imm_to_bin (Py.str_of_int (2 ^ (bits - 1))) bits true)
  ∧ succeeds (imm_to_bin (Py.str_of_int 0) bits false)
  ∧ succeeds (imm_to_bin (Py.str_of_int (2 ^ bits - 1)) bits false)
  ∧ succeeds (imm_to_bin (Py.str_of_int (- 2 ^ (bits - 1))) bits true)
  ∧ succeeds (imm_to_bin (Py.str_of_int (2 ^ (bits - 1) - 1)) bits true).
Proof.
  intros Hbits Hnum.
  assert (0 < 2 ^ bits) as Hp by (apply Z.pow_pos_nonneg; lia).
  assert (0 < 2 ^ (bits - 1)) as Hq by (apply Z.pow_pos_nonneg; lia).
  assert (∀ b s w, ¬ in_range b s w →
            out_of_range_error (imm_to_bin (Py.str_of_int w) b s)) as Hout.
  { intros b s w Hw.
    rewrite (imm_to_bin_out_of_range _ _ w _ (parse_num_str_of_int w) Hw).
    by eexists _, _, _. }
  assert (∀ b s w, in_range b s w →
            succeeds (imm_to_bin (Py.str_of_int w) b s)) as Hin.
  { intros b s w Hw.
    by apply (imm_to_bin_in_range _ _ w _ (parse_num_str_of_int w)). }
  split; [|split].
  - split.
    + intros (n & mn & mx & Herr) Hv.
      destruct (imm_to_bin_in_range _ _ _ _ Hnum Hv) as [s Hs]. congruence.
    + intros Hv. rewrite (imm_to_bin_out_of_range _ _ _ _ Hnum Hv).
      by eexists _, _, _.
  - split.
    + intros [s Hs]. destruct (decide (in_range bits signed v)) as [|Hv];
        [done|].
      rewrite (imm_to_bin_out_of_range _ _ _ _ Hnum Hv) in Hs. done.
    + by apply imm_to_bin_in_range.
  - repeat split; (apply Hout || apply Hin); unfold in_range; lia.
Qed.

Lemma imm_to_bin_range_check_witness :
  (out_of_range_error (imm_to_bin "0b1000" 3 false)
   ↔ ¬ in_range 3 false 8)
  ∧ (succeeds (imm_to_bin "0b1000" 3 false) ↔ in_range 3 false 8)
  ∧ out_of_range_error (imm_to_bin (Py.str_of_int (2 ^ 3)) 3 false)
  ∧ out_of_range_error (imm_to_bin (Py.str_of_int (2 ^ (3 - 1))) 3 true)
  ∧ succeeds (imm_to_bin (Py.str_of_int 0) 3 false)
  ∧ succeeds (imm_to_bin (Py.str_of_int (2 ^ 3 - 1)) 3 false)
  ∧ succeeds (imm_to_bin (Py.str_of_int (- 2 ^ (3 - 1))) 3 true)
  ∧ succeeds (imm_to_bin (Py.str_of_int (2 ^ (3 - 1) - 1)) 3 true).
Proof.
  apply (imm_to_bin_range_check "0b1000" 3 8 false); [lia | by vm_compute].
Defined.

(** ** The matcher *)

Lemma take_drop_while (p : ascii → bool) (s : str) :
  take_while p s ++ drop_while p s = s.
Proof.
  induction s as [|c s IH]; simpl; [done|].
  destruct (p c); simpl; [by rewrite IH | done].
Qed.

Lemma take_consumed (p : ascii → bool) (pre body : str) :
  take (length (pre ++ body) - length (drop_while p body)) (pre ++ body)
  = pre ++ take_while p body.
Proof.
  assert (pre ++ body = (pre ++ take_while p body) ++ drop_while p body)
    as Hsplit by (by rewrite <- app_assoc, take_drop_while).
  set (d := drop_while p body) in *. rewrite Hsplit, length_app.
  replace (length (pre ++ take_while p body) + length d - length d)%nat
    with (length (pre ++ take_while p body)) by lia.
  apply take_app_length.
Qed.

Lemma drop_while_head (p : ascii → bool) (s : str) (c : ascii) (s' : str) :
  drop_while p s = c :: s' → p c = false.
Proof.
  induction s as [|a s IH]; simpl; [done|].
  destruct (p a) eqn:Ha; [done|]. by intros [= <- _].
Qed.

Lemma take_while_all (p : ascii → bool) (s : str) :
  Forall (λ c, p c = true) (take_while p s).
Proof.
  induction s as [|c s IH]; simpl; [done|].
  destruct (p c) eqn:Hc; by constructor.
Qed.

Lemma take_while_app (p : ascii → bool) (x s : str) :
  Forall (λ c, p c = true) x →
  take_while p (x ++ s) = x ++ take_while p s.
Proof.
  induction 1 as [|c x Hc _ IH]; simpl; [done|]. by rewrite Hc, IH.
Qed.

Lemma drop_while_app (p : ascii → bool) (x s : str) :
  Forall (λ c, p c = true) x →
  drop_while p (x ++ s) = drop_while p s.
Proof.
  induction 1 as [|c x Hc _ IH]; simpl; [done|]. by rewrite Hc, IH.
Qed.

Section matcher_facts.
Context {A : Type}.
Variable whole : str.
Implicit Types (k : str → gmap nat str → option A).

Lemma run_seq r1 r2 s g k :
  Re.run whole (r1 ;;; r2) s g k
  = Re.run whole r1 s g (λ s' g', Re.run whole r2 s' g' k).
Proof. reflexivity. Qed.

Lemma run_opt r s g k :
  Re.run whole (Re.Opt r) s g k
  = match Re.run whole r s g k with
    | Some a => Some a
    | None => k s g
    end.
Proof. reflexivity. Qed.

Lemma run_grp n r s g k :
  Re.run whole (Re.Grp n r) s g k
  = Re.run whole r s g
      (λ s' g', k s' (<[n := take (length s - length s') s]> g')).
Proof. reflexivity. Qed.

Lemma run_cls p s g k :
  Re.run whole (Re.Cls p) s g k
  = match s with
    | c :: s' => if p c then k s' g else None
    | [] => None
    end.
Proof. reflexivity. Qed.

Lemma run_chr c s g k :
  Re.run whole (Re.Chr c) s g k
  = match s with
    | c' :: s' => if bool_decide (c' = c) then k s' g else None
    | [] => None
    end.
Proof. reflexivity. Qed.

Lemma run_plus p s g k :
  Re.run whole (Re.Plus p) s g k
  = match s with
    | c :: s' => if p c then Re.star p s' g k else None
    | [] => None
    end.
Proof. reflexivity. Qed.

Lemma run_star p s g k :
  Re.run whole (Re.Star p) s g k = Re.star p s g k.
Proof. reflexivity. Qed.

(** A greedy repetition keeps its longest run when the rest of the
    pattern matches after it. *)
Lemma star_greedy p s g k a :
  k (drop_while p s) g = Some a →
  Re.star p s g k = Some a.
Proof.
  induction s as [|c s IH]; simpl; [done|].
  destruct (p c); [|done]. intros Hk. by rewrite (IH Hk).
Qed.

(** When the rest of the pattern cannot start with a character of the
    class, giving back characters does not help. *)
Lemma star_backtrack p s g k :
  (∀ c s', p c = true → k (c :: s') g = None) →
  Re.star p s g k = k (drop_while p s) g.
Proof.
  intros Hk. induction s as [|c s IH]; simpl; [done|].
  destruct (p c) eqn:Hc; [|done]. rewrite IH.
  destruct (k (drop_while p s) g) eqn:Hd; [done|]. by apply Hk.
Qed.
End matcher_facts.

(** ** What [line_re] matches *)

Lemma line_re_unfold : line_re = Re.Bol ;;; label_re.
Proof. reflexivity. Qed.

Ltac by_cases_on_char c :=
  destruct c as [[] [] [] [] [] [] [] []]; vm_compute; try done;
  intros; discriminate.

Lemma isspace_not_word (c : ascii) :
  Py.isspace c = true → Py.isword c = false.
Proof. by_cases_on_char c. Qed.

Lemma isspace_not_dot (c : ascii) : Py.isspace c = true → c ≠ "."%char.
Proof. by_cases_on_char c. Qed.

Lemma isword_not_colon (c : ascii) : Py.isword c = true → c ≠ ":"%char.
Proof. by_cases_on_char c. Qed.

Lemma isword_not_space (c : ascii) :
  Py.isword c = true → Py.isspace c = false.
Proof. by_cases_on_char c. Qed.

Section line_re_facts.
Variable whole : str.

Let kend : str → gmap nat str → option (gmap nat str) := λ _ g, Some g.

Lemma run_last (s : str) (g : gmap nat str) :
  Re.run whole (Re.Opt (Re.Cls Py.isspace)) s g kend = Some g.
Proof.
  rewrite run_opt, run_cls. destruct s as [|c s']; [done|].
  by destruct (Py.isspace c).
Qed.

Lemma run_args (s : str) (g : gmap nat str) :
  Re.run whole args_re s g kend = Some (<[3%nat := args_at s]> g).
Proof.
  assert (∀ s g,
    Re.run whole (Re.Grp 3 (Re.Star Py.isdot)
                  ;;; Re.Opt (Re.Cls Py.isspace)) s g kend
    = Some (<[3%nat := take_while Py.isdot s]> g)) as Hargs.
  { intros s' g'. rewrite run_seq, run_grp, run_star.
    erewrite star_greedy; [done|].
    cbn beta. rewrite run_last. do 2 f_equal.
    apply (take_consumed Py.isdot [] s'). }
  unfold args_re. rewrite run_seq, run_opt, run_cls. unfold args_at.
  destruct s as [|c s']; [by rewrite Hargs|].
  destruct (Py.isspace c); by rewrite !Hargs.
Qed.

Lemma run_plus_word (s : str) (g : gmap nat str)
    (k : str → gmap nat str → option (gmap nat str)) :
  (∀ s' g', is_Some (k s' g')) →
  Re.run whole (Re.Plus Py.isword) s g k
  = match take_while Py.isword s with
    | [] => None
    | _ => k (drop_while Py.isword s) g
    end.
Proof.
  intros Hk. rewrite run_plus. destruct s as [|c s']; simpl; [done|].
  destruct (Py.isword c); [|done].
  destruct (Hk (drop_while Py.isword s') g) as [a Ha].
  rewrite Ha. by apply star_greedy.
Qed.

Lemma run_op (s : str) (g : gmap nat str) :
  Re.run whole op_re s g kend = op_groups g s.
Proof.
  unfold op_re, op_groups, op_at.
  rewrite run_seq, run_grp, run_seq, run_opt, run_chr.
  set (k := λ s' g', Re.run whole args_re s'
              (<[2%nat := take (length s - length s') s]> g') kend).
  assert (∀ s' g', is_Some (k s' g')) as Hk.
  { intros s' g'. unfold k. by rewrite run_args. }
  assert (∀ pre body, s = pre ++ body →
    Re.run whole (Re.Plus Py.isword) body g k
    = match word_at pre body with
      | Some (op, rest) =>
          Some (<[3%nat := args_at rest]> (<[2%nat := op]> g))
      | None => None
      end) as Hbody.
  { intros pre body ->. rewrite (run_plus_word _ _ _ Hk). unfold word_at.
    destruct (take_while Py.isword body) eqn:Hw; [done|].
    unfold k. rewrite run_args, take_consumed. by rewrite Hw. }
  destruct s as [|c s']; [by rewrite (Hbody [] [] eq_refl)|].
  case_bool_decide as Hc.
  - subst c. rewrite (Hbody ["."%char] s' eq_refl).
    destruct (word_at "." s') as [[op rest]|] eqn:Hw; [done|].
    rewrite (Hbody [] ("."%char :: s') eq_refl). done.
  - by rewrite (Hbody [] (c :: s') eq_refl).
Qed.

Lemma op_groups_space (c : ascii) (s : str) (g : gmap nat str) :
  Py.isspace c = true → op_groups g (c :: s) = None.
Proof.
  intros Hc. unfold op_groups, op_at, word_at.
  rewrite bool_decide_eq_false_2 by (by apply isspace_not_dot).
  simpl. by rewrite (isspace_not_word c Hc).
Qed.

Lemma run_instr (s : str) (g : gmap nat str) :
  Re.run whole instr_re s g kend
  = op_groups g (drop_while Py.isspace s).
Proof.
  unfold instr_re. rewrite run_seq, run_opt, run_plus.
  assert (∀ s', Re.star Py.isspace s' g
                  (λ s'' g', Re.run whole op_re s'' g' kend)
                = op_groups g (drop_while Py.isspace s')) as Hstar.
  { intros s'. rewrite star_backtrack; [by rewrite run_op|].
    intros c s'' Hc. rewrite run_op. by apply op_groups_space. }
  destruct s as [|c s']; [by rewrite run_op|].
  cbn beta. rewrite run_op. cbn [drop_while].
  destruct (Py.isspace c) eqn:Hc; [|done].
  rewrite Hstar.
  destruct (op_groups g (drop_while Py.isspace s')); [done|].
  by apply op_groups_space.
Qed.

Lemma run_label (s : str) (g : gmap nat str) :
  Re.run whole label_re s g kend
  = match take_while Py.isword s, drop_while Py.isword s with
    | x :: xs, c :: rest =>
        if bool_decide (c = ":"%char) then
          match op_groups (<[1%nat := (x :: xs) ++ ":"]> g)
                  (drop_while Py.isspace rest) with
          | Some g' => Some g'
          | None => op_groups g (drop_while Py.isspace s)
          end
        else op_groups g (drop_while Py.isspace s)
    | _, _ => op_groups g (drop_while Py.isspace s)
    end.
Proof.
  unfold label_re.
  rewrite run_seq, run_opt, run_grp, run_seq, run_plus, run_instr.
  set (k := λ s1 g1,
         Re.run whole (Re.Chr ":") s1 g1
           (λ s2 g2, Re.run whole instr_re s2
                       (<[1%nat := take (length s - length s2) s]> g2)
                       kend)).
  assert (∀ c s', Py.isword c = true → k (c :: s') g = None) as Hk.
  { intros c s' Hc. unfold k. rewrite run_chr.
    by rewrite bool_decide_eq_false_2 by (by apply isword_not_colon). }
  destruct s as [|c s'] eqn:Hs; [done|]. rewrite <- Hs.
  destruct (Py.isword c) eqn:Hc.
  - rewrite (star_backtrack Py.isword s' g k Hk).
    assert (take_while Py.isword s = c :: take_while Py.isword s') as Htw
      by (by rewrite Hs; simpl; rewrite Hc).
    assert (drop_while Py.isword s = drop_while Py.isword s') as Hdw
      by (by rewrite Hs; simpl; rewrite Hc).
    rewrite Htw, Hdw. unfold k. rewrite run_chr.
    destruct (drop_while Py.isword s') as [|c' rest] eqn:Hrest; [done|].
    case_bool_decide as Hcolon; [|done].
    rewrite run_instr. subst c'. rewrite <- Hs.
    assert (take (length s - length rest) s
            = (c :: take_while Py.isword s') ++ ":") as ->; [|done].
    assert (s = ((c :: take_while Py.isword s') ++ ":") ++ rest) as Hsplit.
    { rewrite <- (take_drop_while Py.isword s) at 1.
      rewrite Htw, Hdw. by rewrite <- app_assoc. }
    rewrite Hsplit at 1 2. rewrite length_app.
    replace (_ + length rest - length rest)%nat
      with (length ((c :: take_while Py.isword s') ++ ":")) by lia.
    apply take_app_length.
  - rewrite Hs. simpl. by rewrite Hc.
Qed.
End line_re_facts.

Lemma op_groups_instr_at (g : gmap nat str) (s : str) :
  (g' ← op_groups g (drop_while Py.isspace s);
   Some (Groups (g' !! 1%nat) (default "" (g' !! 2%nat))
           (default "" (g' !! 3%nat))))
  = instr_at (g !! 1%nat) s.
Proof.
  unfold op_groups, instr_at.
  destruct (op_at (drop_while Py.isspace s)) as [[op rest]|]; [|done].
  simpl. rewrite lookup_insert_eq.
  rewrite !lookup_insert_ne by done. by rewrite lookup_insert_eq.
Qed.

(** The matcher on [line_re] computes [line_match_spec]. *)
Lemma line_match_eq (s : str) : line_match s = line_match_spec s.
Proof.
  unfold line_match, Re.match_, line_match_spec.
  rewrite line_re_unfold, run_seq. cbn [Re.run].
  rewrite bool_decide_eq_true_2 by done. rewrite run_label.
  pose proof (op_groups_instr_at ∅ s) as Hnone.
  rewrite lookup_empty in Hnone.
  destruct (take_while Py.isword s) as [|x xs]; [done|].
  destruct (drop_while Py.isword s) as [|c rest]; [done|].
  case_bool_decide; [|done].
  pose proof (op_groups_instr_at (<[1%nat := (x :: xs) ++ ":"]> ∅) rest)
    as Hsome.
  rewrite lookup_insert_eq in Hsome.
  set (labelled := instr_at _ rest).
  change (instr_at _ rest) with labelled in Hsome.
  destruct (op_groups _ (drop_while Py.isspace rest)) as [g1|];
    destruct labelled as [m|]; done.
Qed.

(** Groups 2 and 3 take part in every match of [line_re]. *)
Lemma line_re_groups (s : str) (g : gmap nat str) :
  Re.match_ line_re s = Some g →
  is_Some (g !! 2%nat) ∧ is_Some (g !! 3%nat).
Proof.
  unfold Re.match_. rewrite line_re_unfold, run_seq. cbn [Re.run].
  rewrite bool_decide_eq_true_2 by done. rewrite run_label.
  assert (∀ g0 t, op_groups g0 t = Some g →
            is_Some (g !! 2%nat) ∧ is_Some (g !! 3%nat)) as Hop.
  { intros g0 t. unfold op_groups.
    destruct (op_at t) as [[op rest]|]; [|done]. intros [= <-].
    rewrite lookup_insert_eq, lookup_insert_ne by done.
    rewrite lookup_insert_eq. eauto. }
  destruct (take_while Py.isword s) as [|x xs]; [by apply Hop|].
  destruct (drop_while Py.isword s) as [|c rest]; [by apply Hop|].
  case_bool_decide; [|by apply Hop].
  destruct (op_groups _ (drop_while Py.isspace rest)) eqn:H1;
    [intros [= <-]; by eapply Hop | by apply Hop].
Qed.

Ltac destruct_labelled m H :=
  match goal with
  | |- context [instr_at (Some ?l) ?t] =>
      destruct (instr_at (Some l) t) as [m|] eqn:H
  end.

Lemma instr_at_label (lab lab' : option str) (s : str) (m : groups) :
  instr_at lab s = Some m →
  m1 m = lab ∧ instr_at lab' s = Some (Groups lab' (m2 m) (m3 m)).
Proof.
  unfold instr_at.
  destruct (op_at (drop_while Py.isspace s)) as [[op rest]|]; [|done].
  by intros [= <-].
Qed.

(** A label found by the pattern is a label name and a colon. *)
Lemma line_match_label (s : str) (m : groups) (l : str) :
  line_match s = Some m →
  m1 m = Some l →
  ∃ X, label_name X ∧ l = X ++ ":".
Proof.
  rewrite line_match_eq. unfold line_match_spec.
  pose proof (take_while_all Py.isword s) as Hall.
  assert (instr_at None s = Some m → m1 m = Some l → False) as Hnone.
  { intros [H _]%(instr_at_label _ None). congruence. }
  destruct (take_while Py.isword s) as [|x xs]; [intros; exfalso; auto|].
  destruct (drop_while Py.isword s) as [|c rest]; [intros; exfalso; auto|].
  case_bool_decide; [|intros; exfalso; auto].
  destruct_labelled m' Hm'; [|intros; exfalso; auto].
  intros [= <-] Hl. apply (instr_at_label _ None) in Hm' as [Hm' _].
  exists (x :: xs). split; [by split | congruence].
Qed.


(** A label name, a colon and an instruction. *)
Lemma line_match_labelled (X t : str) (lab : option str) (m : groups) :
  label_name X →
  instr_at lab t = Some m →
  line_match (X ++ ":" ++ t)
  = Some (Groups (Some (X ++ ":")) (m2 m) (m3 m)).
Proof.
  intros [Hne Hall] Hm. rewrite line_match_eq. unfold line_match_spec.
  rewrite take_while_app, drop_while_app by done.
  cbn [app take_while drop_while Py.isword]. rewrite app_nil_r.
  change (Py.isword ":") with false. cbn match.
  destruct X as [|x xs]; [done|]. cbn [app].
  rewrite bool_decide_eq_true_2 by done.
  apply (instr_at_label _ (Some ((x :: xs) ++ ":"))) in Hm as [_ Hm].
  destruct_labelled m' Hm'; pose proof (eq_trans (eq_sym Hm') Hm) as Heq;
    [by injection Heq as -> | done].
Qed.

(** An instruction that starts with white space, without a label. *)
Lemma line_match_space (c : ascii) (t : str) (lab : option str) (m : groups) :
  Py.isspace c = true →
  instr_at lab (c :: t) = Some m →
  line_match (c :: t) = Some (Groups None (m2 m) (m3 m)).
Proof.
  intros Hc Hm. rewrite line_match_eq. unfold line_match_spec.
  cbn [take_while]. rewrite (isspace_not_word c Hc).
  by apply (instr_at_label _ None) in Hm as [_ Hm].
Qed.

(** ** Labels and encoding *)

Lemma line_match_is_label (s : str) (m : groups) :
  line_match s = Some m → is_label (m1 m).
Proof.
  intros Hm. destruct (m1 m) as [l|] eqn:Hl; [|by left].
  right. destruct (line_match_label s m l Hm Hl) as (X & HX & ->). eauto.
Qed.

(** A line made of a label (or none) and an instruction that starts with
    white space, as the expander writes them. *)
Lemma line_match_with_label (label : option str) (c : ascii) (t : str)
    (m : groups) :
  is_label label →
  Py.isspace c = true →
  instr_at None (c :: t) = Some m →
  line_match (default "" label ++ c :: t)
  = Some (Groups label (m2 m) (m3 m)).
Proof.
  intros [-> | (X & HX & ->)] Hc Hm.
  - by apply (line_match_space c t None).
  - simpl. rewrite <- app_assoc. by apply (line_match_labelled X _ None).
Qed.

Lemma assemble_line_groups (a b : str) (ma mb : groups) :
  line_match a = Some ma →
  line_match b = Some mb →
  m2 ma = m2 mb →
  m3 ma = m3 mb →
  assemble_line a = assemble_line b.
Proof.
  intros Ha Hb H2 H3. unfold assemble_line. rewrite Ha, Hb.
  cbn [bind subscript]. by rewrite H2, H3.
Qed.










(** *** Trimmed lines *)







(** ** The expander: [movi] *)

Lemma take_while_id (p : ascii → bool) (s : str) :
  Forall (λ c, p c = true) s → take_while p s = s.
Proof. induction 1 as [|c s Hc _ IH]; simpl; [done|]. by rewrite Hc, IH. Qed.

Lemma split_no_sep (s : str) (sep : ascii) :
  sep ∉ s → Py.split s sep = [s].
Proof.
  induction s as [|c s IH]; [done|].
  intros [Hc Hs]%not_elem_of_cons. simpl.
  rewrite bool_decide_eq_false_2 by done. by rewrite (IH Hs).
Qed.

Lemma split_app_sep (a b : str) (sep : ascii) :
  sep ∉ a → Py.split (a ++ sep :: b) sep = a :: Py.split b sep.
Proof.
  induction a as [|c a IH]; simpl.
  - intros _. by rewrite bool_decide_eq_true_2.
  - intros [Hc Ha]%not_elem_of_cons.
    rewrite bool_decide_eq_false_2 by done. by rewrite (IH Ha).
Qed.

Lemma operand_text_no_comma (s : str) : operand_text s → ","%char ∉ s.
Proof.
  intros H Hin. unfold operand_text in H. rewrite Forall_forall in H.
  by destruct (H _ Hin).
Qed.

Lemma operand_text_isdot (s : str) :
  operand_text s → Forall (λ c, Py.isdot c = true) s.
Proof. intros H. eapply Forall_impl; [exact H|]. by intros c [_ Hc]. Qed.

Lemma str_of_int_isdot (n : Z) :
  Forall (λ c, Py.isdot c = true) (Py.str_of_int n).
Proof.
  eapply Forall_impl; [apply str_of_int_chars|].
  intros c [H | ->]; [|done].
  unfold Py.isdot, Py.between in *. lia.
Qed.

Lemma operands_isdot (R : str) (n : Z) :
  operand_text R →
  take_while Py.isdot (R ++ "," ++ Py.str_of_int n)
  = R ++ "," ++ Py.str_of_int n.
Proof.
  intros HR. apply take_while_id. apply Forall_app.
  split; [by apply operand_text_isdot|].
  constructor; [done | apply str_of_int_isdot].
Qed.

Lemma line_match_movi (label : option str) (rest : str) :
  is_label label →
  line_match (label_prefix label ++ "movi " ++ rest)
  = Some (Groups label "movi" (take_while Py.isdot rest)).
Proof.
  intros [-> | (X & HX & ->)].
  - rewrite line_match_eq. reflexivity.
  - unfold label_prefix. rewrite <- !app_assoc.
    by apply (line_match_labelled X (" movi " ++ rest) None
                (Groups None "movi" (take_while Py.isdot rest))).
Qed.

(** C8, as the code has it.  A line [movi R,V], with or without a label,
    where [R] and [V] are operand texts and [int] reads [V] in base 10 as
    [v], becomes exactly two lines.  The first is the label of the
    original line (nothing if it had none), a no-break space and
    [lui R,v // 64]: the pattern reads it as the instruction [lui] with
    the operands [R,v // 64] under that label.  The second is
    [lli R,v % 64], without a label. *)
Theorem movi_expansion (label : option str) (R V : str) (v : Z) :
  is_label label →
  operand_text R →
  operand_text V →
  Py.int V 10 = Ok v →
  convert_pseudoinstructions [label_prefix label ++ "movi " ++ R ++ "," ++ V]
  = Ok [default "" label ++ nbsp :: "lui " ++ R ++ ","
          ++ Py.str_of_int (v `div` 64);
        "lli " ++ R ++ "," ++ Py.str_of_int (v `mod` 64)]
  ∧ line_match (default "" label ++ nbsp :: "lui " ++ R ++ ","
                  ++ Py.str_of_int (v `div` 64))
    = Some (Groups label "lui" (R ++ "," ++ Py.str_of_int (v `div` 64)))
  ∧ line_match ("lli " ++ R ++ "," ++ Py.str_of_int (v `mod` 64))
    = Some (Groups None "lli" (R ++ "," ++ Py.str_of_int (v `mod` 64))).
Proof.
  intros Hlabel HR HV Hv. split; [|split].
  - rewrite convert_pseudoinstructions_single. unfold convert_line.
    rewrite (line_match_movi label _ Hlabel). cbn [bind subscript m1 m2 m3].
    rewrite bool_decide_eq_false_2 by done.
    rewrite bool_decide_eq_true_2 by done.
    rewrite take_while_id.
    2:{ apply Forall_app. split; [by apply operand_text_isdot|].
        constructor; [done | by apply operand_text_isdot]. }
    change ("," ++ V) with (","%char :: V).
    rewrite split_app_sep by (by apply operand_text_no_comma).
    rewrite split_no_sep by (by apply operand_text_no_comma).
    cbn [unpack2 bind fst snd]. rewrite Hv. reflexivity.
  - rewrite <- (operands_isdot R (v `div` 64) HR) at 2.
    by apply (line_match_with_label label nbsp
                ("lui " ++ R ++ "," ++ Py.str_of_int (v `div` 64))
                (Groups None "lui"
                   (take_while Py.isdot
                      (R ++ "," ++ Py.str_of_int (v `div` 64))))).
  - rewrite <- (operands_isdot R (v `mod` 64) HR) at 2.
    rewrite line_match_eq. reflexivity.
Qed.

(** C8, as stated, fails on these lines.  [0x41] and [0b1000001] are
    integer literals, which [imm_to_bin] reads as 65, and [movi 2,65] is
    expanded to [lui 2,1] and [lli 2,1].  But the expander reads the
    operand of [movi] with [int(imm)], in base 10 only: on the same value
    written in hexadecimal or in binary it raises [ValueError], no line
    is returned, and the exception escapes from [assemble_code]. *)
Lemma movi_hexadecimal_operand :
  parse_num "0x41" = Ok 65
  ∧ parse_num "0b1000001" = Ok 65
  ∧ convert_pseudoinstructions ["movi 2,65"]
    = Ok [nbsp :: "lui 2,1"; "lli 2,1"]
  ∧ convert_pseudoinstructions ["movi 2,0x41"]
    = Raise (ValueError_invalid_literal 10 "0x41")
  ∧ convert_pseudoinstructions ["movi 2,0b1000001"]
    = Raise (ValueError_invalid_literal 10 "0b1000001")
  ∧ assemble_code ["movi 2,0x41"]
    = (Raise (ValueError_invalid_literal 10 "0x41"), []).
Proof. repeat split; by vm_compute. Qed.

Lemma movi_expansion_witness :
  (convert_pseudoinstructions ["movi r2,65"]
   = Ok [nbsp :: "lui r2,1"; "lli r2,1"]
   ∧ line_match (nbsp :: "lui r2,1") = Some (Groups None "lui" "r2,1")
   ∧ line_match "lli r2,1" = Some (Groups None "lli" "r2,1"))
  ∧ (convert_pseudoinstructions ["L: movi r2,65"]
     = Ok ["L:" ++ nbsp :: "lui r2,1"; "lli r2,1"]
     ∧ line_match ("L:" ++ nbsp :: "lui r2,1")
       = Some (Groups (Some "L:") "lui" "r2,1")
     ∧ line_match "lli r2,1" = Some (Groups None "lli" "r2,1")).
Proof.
  split.
  - apply (movi_expansion None "r2" "65" 65).
    + by left.
    + by repeat constructor.
    + by repeat constructor.
    + by vm_compute.
  - apply (movi_expansion (Some "L:") "r2" "65" 65).
    + right. exists "L". split; [|done].
      split; [done | by repeat constructor].
    + by repeat constructor.
    + by repeat constructor.
    + by vm_compute.
Defined.

(** ** The width of the machine words *)

Lemma unpack3_gen_Ok {A B} (f : A → res B) (l : list A) (x y z : B) :
  unpack3_gen f l = Ok (x, y, z) →
  ∃ a b c, l = [a; b; c] ∧ f a = Ok x ∧ f b = Ok y ∧ f c = Ok z.
Proof.
  destruct l as [|a [|b [|c [|d l]]]]; simpl; try done.
  - by destruct (f a).
  - destruct (f a); [|done]. simpl. by destruct (f b).
  - destruct (f a) as [x'|] eqn:Ha; [|done]. simpl.
    destruct (f b) as [y'|] eqn:Hb; [|done]. simpl.
    destruct (f c) as [z'|] eqn:Hc; [|done]. simpl.
    intros [= -> -> ->]. by exists a, b, c.
  - destruct (f a); [|done]. simpl. destruct (f b); [|done]. simpl.
    destruct (f c); [|done]. simpl. by destruct (f d).
Qed.

Lemma opcodes_width (op o : str) :
  opcodes !! op = Some o → length o = 3%nat ∧ binary o.
Proof.
  unfold opcodes.
  repeat (rewrite lookup_insert; case_decide;
          [intros [= <-]; split; [done | by repeat constructor] |]).
  by rewrite lookup_empty.
Qed.

Lemma concat_opcode_Ok (opcode : option str) (s w : str) :
  concat_opcode opcode s = Ok w → ∃ o, opcode = Some o ∧ w = o ++ s.
Proof. destruct opcode as [o|]; [|done]. intros [= <-]. eauto. Qed.

Lemma imm_to_bin_digits (num : str) (bits : nat) (signed : bool) (s : str) :
  (1 ≤ bits)%nat →
  imm_to_bin num (Z.of_nat bits) signed = Ok s →
  length s = bits ∧ binary s.
Proof.
  intros Hbits Hs.
  destruct (imm_to_bin_width num (Z.of_nat bits) signed s) as [Hlen Hbin];
    [lia | done |].
  split; [lia | done].
Qed.

Ltac bind_inv H :=
  repeat match type of H with
         | bind ?x _ = Ok _ =>
             let v := fresh "v" in
             let Hv := fresh "Hv" in
             destruct x as [v|] eqn:Hv; [cbn [bind] in H | discriminate H]
         | (let '(_, _) := ?r in _) = Ok _ => destruct r
         end.

Ltac word_facts :=
  repeat match goal with
         | H : unpack3_gen _ _ = Ok _ |- _ =>
             apply unpack3_gen_Ok in H as (? & ? & ? & _ & ? & ? & ?)
         | H : concat_opcode _ _ = Ok _ |- _ =>
             apply concat_opcode_Ok in H as (? & [? ?]%opcodes_width & ->)
         | H : imm_to_bin _ ?k _ = Ok _ |- _ =>
             let n := eval vm_compute in (Z.to_nat k) in
             apply (imm_to_bin_digits _ n) in H as [? ?]; [|lia]
         | H : Ok _ = Ok _ |- _ => injection H as <-
         end.

(** Every word [assemble_line] returns for a mnemonic other than [nop]
    is a string of 16 binary digits. *)
Lemma assemble_line_word_16 (line : str) (m : groups) (w : str) :
  line_match line = Some m →
  m2 m ≠ "nop" →
  assemble_line line = Ok (Some w) →
  length w = 16%nat ∧ binary w.
Proof.
  intros Hm Hnop. unfold assemble_line. rewrite Hm.
  cbn [bind subscript]. unfold binary.
  repeat (case_bool_decide;
          [try done; intros Hw; bind_inv Hw; word_facts;
           unfold Py.mul; simpl; rewrite ?app_nil_r;
           (split;
            [rewrite ?length_app; simpl; lia
            | repeat match goal with
                     | |- Forall _ (_ ++ _) => apply Forall_app; split
                     | |- Forall _ (_ :: _) => constructor
                     | |- Forall _ [] => constructor
                     end;
              try done; try (by left); by right]) |]).
  done.
Qed.

(** C3.  [nop] assembles, to a word of 17 characters: the literal the
    source returns for it has one zero too many.  [halt] next to it has
    16. *)
Theorem nop_word_has_17_characters :
  assemble_line "nop" = Ok (Some "00000000000000000")
  ∧ length ("00000000000000000" : str) = 17%nat
  ∧ assemble_line "halt" = Ok (Some "1110000000000001")
  ∧ assemble_code ["nop"]
    = (Ok (Some [Some "00000000000000000"]),
       [Assembling "nop"; Printed (Some "00000000000000000")]).
Proof. repeat split; by vm_compute. Qed.

(** * Further properties *)

(** ** Binary numerals, continued *)

Lemma unsigned_value_app (a b : str) :
  unsigned_value (a ++ b)
  = unsigned_value a * 2 ^ Z.of_nat (length b) + unsigned_value b.
Proof.
  induction b as [|c b IH] using rev_ind.
  - rewrite app_nil_r. simpl. change (unsigned_value []) with 0. lia.
  - rewrite app_assoc, !unsigned_value_snoc, IH, length_app.
    simpl length. rewrite Nat2Z.inj_add, Z.pow_add_r by lia.
    change (2 ^ Z.of_nat 1) with 2. lia.
Qed.

Lemma unsigned_value_bound (s : str) :
  0 ≤ unsigned_value s < 2 ^ Z.of_nat (length s).
Proof.
  induction s as [|c s IH] using rev_ind; [done|].
  rewrite unsigned_value_snoc, length_app. simpl length.
  rewrite Nat2Z.inj_add, Z.pow_add_r by lia. change (2 ^ Z.of_nat 1) with 2.
  destruct (bool_decide (c = "1"%char)); lia.
Qed.

(** Two strings of binary digits of the same length and the same value
    are the same string. *)
Lemma unsigned_value_inj (s t : str) :
  binary s →
  binary t →
  length s = length t →
  unsigned_value s = unsigned_value t →
  s = t.
Proof.
  revert t. induction s as [|c s IH] using rev_ind; intros t Hs Ht Hlen Hval.
  - destruct t; [done | discriminate Hlen].
  - destruct t as [|d t _] using rev_ind.
    { rewrite length_app in Hlen. simpl in Hlen. lia. }
    rewrite !length_app in Hlen. simpl in Hlen.
    rewrite !unsigned_value_snoc in Hval.
    apply Forall_app in Hs as [Hs Hc]. apply Forall_app in Ht as [Ht Hd].
    apply Forall_inv in Hc. apply Forall_inv in Hd.
    assert (unsigned_value s = unsigned_value t ∧ c = d) as [Hst ->].
    { destruct Hc as [-> | ->], Hd as [-> | ->]; simpl in Hval;
        split; try done; lia. }
    f_equal. apply IH; [done | done | lia | done].
Qed.

Lemma signed_value_unsigned (s : str) :
  s ≠ [] →
  unsigned_value s = signed_value s `mod` 2 ^ Z.of_nat (length s).
Proof.
  intros Hne. pose proof (unsigned_value_bound s) as Hb.
  destruct s as [|c s']; [done|]. unfold signed_value.
  set (s := c :: s') in *.
  case_bool_decide.
  - apply (Z.mod_unique _ _ (-1)); lia.
  - symmetry. apply Z.mod_small. lia.
Qed.

(** ** The immediate encoder, continued *)

Lemma imm_to_bin_Ok_in_range (num : str) (bits v : Z) (signed : bool)
    (w : str) :
  parse_num num = Ok v →
  imm_to_bin num bits signed = Ok w →
  in_range bits signed v.
Proof.
  intros Hnum Hw. destruct (decide (in_range bits signed v)) as [|Hout];
    [done|].
  by rewrite (imm_to_bin_out_of_range _ _ _ _ Hnum Hout) in Hw.
Qed.

Lemma imm_to_bin_value (num : str) (bits v : Z) (signed : bool) (w : str) :
  1 ≤ bits →
  parse_num num = Ok v →
  imm_to_bin num bits signed = Ok w →
  Z.of_nat (length w) = bits
  ∧ binary w
  ∧ (if signed then signed_value w else unsigned_value w) = v.
Proof.
  intros Hbits Hnum Hw.
  pose proof (imm_to_bin_Ok_in_range _ _ _ _ _ Hnum Hw) as Hin.
  destruct signed.
  - destruct (imm_to_bin_signed num bits v Hbits Hnum Hin)
      as (w' & Hw' & ? & ? & ?).
    rewrite Hw in Hw'. by injection Hw' as <-.
  - destruct (imm_to_bin_unsigned num bits v Hbits Hnum Hin)
      as (w' & Hw' & ? & ? & ?).
    rewrite Hw in Hw'. by injection Hw' as <-.
Qed.

(** X1.  Whatever [imm_to_bin] returns for a width of at least one bit
    is a string of exactly that many characters, each [0] or [1]: the
    negative branch, which does not pad, included. *)
Theorem imm_to_bin_output_width (num : str) (bits : Z) (signed : bool)
    (w : str) :
  1 ≤ bits →
  imm_to_bin num bits signed = Ok w →
  Z.of_nat (length w) = bits ∧ binary w.
Proof. apply imm_to_bin_width. Qed.

Lemma imm_to_bin_output_width_witness :
  Z.of_nat (length ("1000000" : str)) = 7 ∧ binary "1000000".
Proof.
  apply (imm_to_bin_output_width "-64" 7 true "1000000"); [lia|].
  by vm_compute.
Defined.

(** X2.  [imm_to_bin] does not confuse two values: when two literals are
    encoded to the same string at the same width and signedness, they
    denote the same integer. *)
Theorem imm_to_bin_injective (num1 num2 : str) (bits v1 v2 : Z)
    (signed : bool) (w : str) :
  1 ≤ bits →
  parse_num num1 = Ok v1 →
  parse_num num2 = Ok v2 →
  imm_to_bin num1 bits signed = Ok w →
  imm_to_bin num2 bits signed = Ok w →
  v1 = v2.
Proof.
  intros Hbits H1 H2 Hw1 Hw2.
  destruct (imm_to_bin_value _ _ _ _ _ Hbits H1 Hw1) as (_ & _ & <-).
  by destruct (imm_to_bin_value _ _ _ _ _ Hbits H2 Hw2) as (_ & _ & <-).
Qed.

Lemma imm_to_bin_injective_witness : 10 = 10.
Proof.
  apply (imm_to_bin_injective "0xa" "0b1010" 7 10 10 true "0001010");
    [lia | by vm_compute ..].
Defined.

(** X3.  The signed encoding is two's complement: for a value [v] in the
    signed range it is the unsigned encoding of [v mod 2 ** bits]. *)
Theorem imm_to_bin_twos_complement (num : str) (bits v : Z) :
  1 ≤ bits →
  parse_num num = Ok v →
  - 2 ^ (bits - 1) ≤ v ≤ 2 ^ (bits - 1) - 1 →
  imm_to_bin num bits true
  = imm_to_bin (Py.str_of_int (v `mod` 2 ^ bits)) bits false.
Proof.
  intros Hbits Hnum Hv.
  assert (0 < 2 ^ bits) as Hp by (apply Z.pow_pos_nonneg; lia).
  destruct (imm_to_bin_signed num bits v Hbits Hnum Hv)
    as (s & -> & Hls & Hbs & Hvs).
  pose proof (Z.mod_pos_bound v (2 ^ bits) Hp) as Hmod.
  destruct (imm_to_bin_unsigned _ bits _ Hbits
              (parse_num_str_of_int (v `mod` 2 ^ bits)))
    as (u & -> & Hlu & Hbu & Hvu); [lia|].
  f_equal. apply unsigned_value_inj; [done | done | lia |].
  rewrite Hvu, signed_value_unsigned, Hvs, Hls; [done|].
  intros ->. simpl in Hls. lia.
Qed.

Lemma imm_to_bin_twos_complement_witness :
  imm_to_bin "-1" 7 true
  = imm_to_bin (Py.str_of_int ((-1) `mod` 2 ^ 7)) 7 false.
Proof.
  apply (imm_to_bin_twos_complement "-1" 7 (-1)); [lia | by vm_compute | lia].
Defined.

(** X4.  On the values that are in both ranges, [0 .. 2 ** (bits - 1) - 1],
    the signed and the unsigned encoding are the same string. *)
Theorem imm_to_bin_signed_unsigned_agree (num : str) (bits v : Z) :
  1 ≤ bits →
  parse_num num = Ok v →
  0 ≤ v ≤ 2 ^ (bits - 1) - 1 →
  imm_to_bin num bits true = imm_to_bin num bits false.
Proof.
  intros Hbits Hnum Hv. unfold imm_to_bin. rewrite Hnum. simpl.
  assert (2 ^ bits = 2 * 2 ^ (bits - 1)) as Hpow.
  { rewrite <- Z.pow_succ_r by lia. f_equal. lia. }
  replace ((-1 * (2 ^ (bits - 1) - 1) - 1 <=? v) && (v <=? 2 ^ (bits - 1) - 1))
    with true by lia.
  replace ((0 <=? v) && (v <=? 2 ^ bits - 1)) with true by lia.
  done.
Qed.

Lemma imm_to_bin_signed_unsigned_agree_witness :
  imm_to_bin "63" 7 true = imm_to_bin "63" 7 false.
Proof.
  apply (imm_to_bin_signed_unsigned_agree "63" 7 63);
    [lia | by vm_compute | lia].
Defined.

(** X5.  The parser of [imm_to_bin] reads the decimal form of every
    integer, negative ones included, back as that integer; so every integer
    can be given to the encoder. *)
Theorem parse_num_decimal (n : Z) : parse_num (Py.str_of_int n) = Ok n.
Proof. apply parse_num_str_of_int. Qed.

(** ** What the pattern captures *)

Lemma isword_not_dot (c : ascii) : Py.isword c = true → c ≠ "."%char.
Proof. by_cases_on_char c. Qed.

Lemma word_at_Some (pre s op rest : str) :
  word_at pre s = Some (op, rest) →
  ∃ w, w ≠ [] ∧ Forall (λ c, Py.isword c = true) w ∧ op = pre ++ w.
Proof.
  unfold word_at. pose proof (take_while_all Py.isword s) as Hall.
  destruct (take_while Py.isword s) as [|c w]; [done|].
  intros [= <- _]. by exists (c :: w).
Qed.

Lemma op_at_Some (s op rest : str) :
  op_at s = Some (op, rest) → is_mnemonic op.
Proof.
  unfold op_at. destruct s as [|c s]; [done|].
  case_bool_decide; intros (w & Hne & Hall & ->)%word_at_Some;
    exists w; split; [done | | done |]; (split; [done|]);
    [by right | by left].
Qed.

Lemma instr_at_shape (label : option str) (s : str) (m : groups) :
  instr_at label s = Some m →
  is_mnemonic (m2 m) ∧ Forall (λ c, Py.isdot c = true) (m3 m).
Proof.
  unfold instr_at.
  destruct (op_at (drop_while Py.isspace s)) as [[op rest]|] eqn:Hop;
    [|done].
  intros [= <-]. split; [by eapply op_at_Some|].
  apply take_while_all.
Qed.

Lemma line_match_instr_at (s : str) (m : groups) :
  line_match s = Some m → ∃ lab t, instr_at lab t = Some m.
Proof.
  rewrite line_match_eq. unfold line_match_spec.
  destruct (take_while Py.isword s) as [|x xs]; [by eexists _, _|].
  destruct (drop_while Py.isword s) as [|c rest]; [by eexists _, _|].
  case_bool_decide; [|by eexists _, _].
  destruct_labelled m' Hm'; [|by eexists _, _].
  intros [= <-]. by eexists _, _.
Qed.

(** X6.  What the pattern captures when it matches: the label group is
    absent or is word characters and a colon, the mnemonic is word
    characters after an optional dot, and the operand text has no
    newline. *)
Theorem line_match_shape (s : str) (m : groups) :
  line_match s = Some m →
  is_label (m1 m)
  ∧ is_mnemonic (m2 m)
  ∧ Forall (λ c, Py.isdot c = true) (m3 m).
Proof.
  intros Hm. split; [by eapply line_match_is_label|].
  destruct (line_match_instr_at s m Hm) as (lab & t & Ht).
  by eapply instr_at_shape.
Qed.

Lemma line_match_shape_witness :
  is_label (Some "L:")
  ∧ is_mnemonic ".fill"
  ∧ Forall (λ c, Py.isdot c = true) ("5" : str).
Proof.
  apply (line_match_shape "L: .fill 5" (Groups (Some "L:") ".fill" "5")).
  by vm_compute.
Defined.

Lemma op_at_is_Some (s : str) :
  is_Some (op_at s)
  ↔ match s with
    | c :: t =>
        if bool_decide (c = "."%char) then
          match t with
          | d :: _ => Py.isword d = true
          | [] => False
          end
        else Py.isword c = true
    | [] => False
    end.
Proof.
  unfold op_at, word_at. destruct s as [|c t]; [by split; [intros []|]|].
  case_bool_decide.
  - destruct t as [|d t]; simpl; [by split; [intros []|]|].
    destruct (Py.isword d); split; try done; by intros [].
  - simpl. destruct (Py.isword c); split; try done; by intros [].
Qed.

Lemma instr_at_is_Some (label : option str) (s : str) :
  is_Some (instr_at label s) ↔ starts_instruction s = true.
Proof.
  unfold instr_at, starts_instruction.
  pose proof (op_at_is_Some (drop_while Py.isspace s)) as Hop.
  destruct (drop_while Py.isspace s) as [|c t].
  - simpl. split; [by intros [] | done].
  - destruct (op_at (c :: t)) as [[op rest]|].
    + assert (is_Some (Some (op, rest))) as H%Hop by done.
      split; [intros _ | done].
      case_bool_decide; [by destruct t | done].
    + split; [by intros [] |]. intros H. exfalso.
      assert (is_Some (@None (str * str))) as []; [|done].
      apply Hop. case_bool_decide; [by destruct t | done].
Qed.

(** X7.  The pattern matches a line exactly when, after its leading
    white space, the line starts with a word character or with a dot and
    a word character.  On every other line, the empty line and a comment
    among them, both [assemble_line] and the expander raise [TypeError]
    when they subscript the missing match. *)
Theorem line_match_None_iff (s : str) :
  (line_match s = None ↔ starts_instruction s = false)
  ∧ (line_match s = None →
     assemble_line s = Raise TypeError_not_subscriptable
     ∧ convert_pseudoinstructions [s] = Raise TypeError_not_subscriptable).
Proof.
  split.
  - assert (is_Some (line_match s) ↔ starts_instruction s = true) as Hiff.
    { rewrite <- (instr_at_is_Some None). rewrite line_match_eq.
      unfold line_match_spec.
      pose proof (take_while_all Py.isword s) as Hall.
      pose proof (take_drop_while Py.isword s) as Hsplit.
      destruct (take_while Py.isword s) as [|x xs]; [done|].
      destruct (drop_while Py.isword s) as [|c rest]; [done|].
      case_bool_decide; [|done].
      destruct_labelled m' Hm'; [|done].
      split; [intros _ | done].
      apply instr_at_is_Some. unfold starts_instruction.
      rewrite <- Hsplit. apply Forall_cons in Hall as [Hx _].
      simpl. rewrite (isword_not_space x Hx).
      by rewrite bool_decide_eq_false_2 by (by apply isword_not_dot). }
    destruct (line_match s), (starts_instruction s); split; try done;
      intros _; exfalso.
    + assert (false = true) by (by apply Hiff). done.
    + assert (is_Some (@None groups)) as []; [by apply Hiff | done].
  - intros Hm. rewrite convert_pseudoinstructions_single.
    unfold assemble_line, convert_line. by rewrite Hm.
Qed.

(** ** The instruction formats *)

(** Decides the tests of [assemble_line] on a mnemonic that is known. *)
Ltac decide_mnemonic :=
  repeat match goal with
         | |- context [bool_decide ?P] =>
             let b := eval vm_compute in (bool_decide P) in
             change (bool_decide P) with b; cbv iota
         end.

Ltac mnemonic_cases H :=
  repeat (apply elem_of_cons in H as [H | H]);
  [.. | by apply elem_of_nil in H].

Lemma register_field (R : str) (r : Z) :
  parse_num R = Ok r →
  0 ≤ r ≤ 7 →
  ∃ f, imm_to_bin R 3 false = Ok f ∧ length f = 3%nat ∧ binary f
       ∧ unsigned_value f = r.
Proof.
  intros HR Hr.
  destruct (imm_to_bin_unsigned R 3 r) as (f & Hf & Hlen & Hbin & Hval);
    [lia | done | simpl; lia |].
  exists f. repeat split; [done | lia | done | done].
Qed.

Ltac word_value :=
  rewrite ?unsigned_value_app, ?length_app;
  repeat match goal with
         | H : length ?x = _ |- context [length ?x] => rewrite H
         | H : unsigned_value ?x = _ |- context [unsigned_value ?x] =>
             rewrite H
         end;
  repeat match goal with
         | |- context [unsigned_value ?s] =>
             let v := eval vm_compute in (unsigned_value s) in
             progress change (unsigned_value s) with v
         | |- context [2 ^ ?k] =>
             let v := eval vm_compute in (2 ^ k) in
             progress change (2 ^ k) with v
         end;
  lia.

Ltac word_binary :=
  unfold binary in *;
  repeat match goal with
         | |- Forall _ (_ ++ _) => apply Forall_app; split
         | |- Forall _ (_ :: _) => constructor
         | |- Forall _ [] => constructor
         end;
  try done; try (by left); by right.

(** X8.  The RRR format.  For [add] and [nand] with three register
    literals in [0..7], the word is 16 binary digits whose fields, from
    the left, are the opcode (3 bits), the registers A and B (3 bits
    each), four zeros and the register C (3 bits). *)
Theorem assemble_RRR (line : str) (m : groups) (A B C : str) (a b c : Z) :
  line_match line = Some m →
  m2 m ∈ ["add"; "nand"] →
  Py.split (m3 m) "," = [A; B; C] →
  parse_num A = Ok a → 0 ≤ a ≤ 7 →
  parse_num B = Ok b → 0 ≤ b ≤ 7 →
  parse_num C = Ok c → 0 ≤ c ≤ 7 →
  ∃ o w,
    opcodes !! m2 m = Some o
    ∧ assemble_line line = Ok (Some w)
    ∧ length w = 16%nat
    ∧ binary w
    ∧ unsigned_value w
      = unsigned_value o * 2 ^ 13 + a * 2 ^ 10 + b * 2 ^ 7 + c.
Proof.
  intros Hm Hop Hsplit HA Ha HB Hb HC Hc.
  destruct (register_field A a HA Ha) as (fa & Hfa & Hla & Hba & Hva).
  destruct (register_field B b HB Hb) as (fb & Hfb & Hlb & Hbb & Hvb).
  destruct (register_field C c HC Hc) as (fc & Hfc & Hlc & Hbc & Hvc).
  unfold assemble_line. rewrite Hm. cbn [bind subscript].
  rewrite Hsplit. cbn [unpack3_gen]. rewrite Hfa, Hfb, Hfc. cbn [bind].
  mnemonic_cases Hop; rewrite Hop; decide_mnemonic;
    eexists _, _; (split; [by vm_compute|]); cbn [concat_opcode bind];
    (split; [reflexivity|]);
    (split; [rewrite !length_app, Hla, Hlb, Hlc; done|]);
    (split; [word_binary | word_value]).
Qed.

Lemma assemble_RRR_witness :
  ∃ o w,
    opcodes !! ("nand" : str) = Some o
    ∧ assemble_line "L: nand 1,0x2,0b11" = Ok (Some w)
    ∧ length w = 16%nat
    ∧ binary w
    ∧ unsigned_value w
      = unsigned_value o * 2 ^ 13 + 1 * 2 ^ 10 + 2 * 2 ^ 7 + 3.
Proof.
  apply (assemble_RRR "L: nand 1,0x2,0b11"
           (Groups (Some "L:") "nand" "1,0x2,0b11") "1" "0x2" "0b11");
    try (by vm_compute); try lia.
  by apply (bool_decide_unpack _).
Defined.

Lemma unsigned_field (I : str) (i : Z) (bits : nat) :
  (1 ≤ bits)%nat →
  parse_num I = Ok i →
  0 ≤ i ≤ 2 ^ Z.of_nat bits - 1 →
  ∃ f, imm_to_bin I (Z.of_nat bits) false = Ok f ∧ length f = bits
       ∧ binary f ∧ unsigned_value f = i.
Proof.
  intros Hbits HI Hi.
  destruct (imm_to_bin_unsigned I (Z.of_nat bits) i)
    as (f & Hf & Hlen & Hbin & Hval); [lia | done | done |].
  exists f. repeat split; [done | lia | done | done].
Qed.

Lemma signed_field (I : str) (i : Z) (bits : nat) :
  (1 ≤ bits)%nat →
  parse_num I = Ok i →
  - 2 ^ (Z.of_nat bits - 1) ≤ i ≤ 2 ^ (Z.of_nat bits - 1) - 1 →
  ∃ f, imm_to_bin I (Z.of_nat bits) true = Ok f ∧ length f = bits
       ∧ binary f ∧ signed_value f = i
       ∧ unsigned_value f = i `mod` 2 ^ Z.of_nat bits.
Proof.
  intros Hbits HI Hi.
  destruct (imm_to_bin_signed I (Z.of_nat bits) i)
    as (f & Hf & Hlen & Hbin & Hval); [lia | done | done |].
  exists f. repeat split; [done | lia | done | done |].
  rewrite signed_value_unsigned, Hval; [by rewrite Hlen|].
  intros ->. simpl in Hlen. lia.
Qed.

(** X9.  The RRI format.  For [addi], [sw], [lw], [beq] and [jalr] with
    two register literals in [0..7] and an immediate in [-64..63], the
    word is 16 binary digits: opcode (3 bits), registers A and B (3 bits
    each) and the immediate in 7-bit two's complement. *)
Theorem assemble_RRI (line : str) (m : groups) (A B I : str) (a b i : Z) :
  line_match line = Some m →
  m2 m ∈ ["addi"; "sw"; "lw"; "beq"; "jalr"] →
  Py.split (m3 m) "," = [A; B; I] →
  parse_num A = Ok a → 0 ≤ a ≤ 7 →
  parse_num B = Ok b → 0 ≤ b ≤ 7 →
  parse_num I = Ok i → -64 ≤ i ≤ 63 →
  ∃ o w,
    opcodes !! m2 m = Some o
    ∧ assemble_line line = Ok (Some w)
    ∧ length w = 16%nat
    ∧ binary w
    ∧ unsigned_value w
      = unsigned_value o * 2 ^ 13 + a * 2 ^ 10 + b * 2 ^ 7 + i `mod` 2 ^ 7.
Proof.
  intros Hm Hop Hsplit HA Ha HB Hb HI Hi.
  destruct (register_field A a HA Ha) as (fa & Hfa & Hla & Hba & Hva).
  destruct (register_field B b HB Hb) as (fb & Hfb & Hlb & Hbb & Hvb).
  destruct (signed_field I i 7 ltac:(lia) HI ltac:(simpl; lia))
    as (fi & Hfi & Hli & Hbi & _ & Hvi).
  change (Z.of_nat 7) with 7 in *.
  unfold assemble_line. rewrite Hm. cbn [bind subscript].
  rewrite Hsplit. cbn [unpack3].
  mnemonic_cases Hop; rewrite Hop; decide_mnemonic; cbn [bind];
    rewrite Hfa, Hfb, Hfi;
    eexists _, _; (split; [by vm_compute|]); cbn [concat_opcode bind];
    (split; [reflexivity|]);
    (split; [rewrite !length_app, Hla, Hlb, Hli; done|]);
    (split; [word_binary | word_value]).
Qed.

Lemma assemble_RRI_witness :
  ∃ o w,
    opcodes !! ("beq" : str) = Some o
    ∧ assemble_line "beq 1,2,-3" = Ok (Some w)
    ∧ length w = 16%nat
    ∧ binary w
    ∧ unsigned_value w
      = unsigned_value o * 2 ^ 13 + 1 * 2 ^ 10 + 2 * 2 ^ 7 + (-3) `mod` 2 ^ 7.
Proof.
  apply (assemble_RRI "beq 1,2,-3" (Groups None "beq" "1,2,-3")
           "1" "2" "-3");
    try (by vm_compute); try lia.
  by apply (bool_decide_unpack _).
Defined.

Lemma lui_word (line : str) (m : groups) (A I : str) (a i : Z) :
  line_match line = Some m →
  m2 m = "lui" →
  Py.split (m3 m) "," = [A; I] →
  parse_num A = Ok a → 0 ≤ a ≤ 7 →
  parse_num I = Ok i → 0 ≤ i ≤ 1023 →
  ∃ w,
    assemble_line line = Ok (Some w)
    ∧ length w = 16%nat
    ∧ binary w
    ∧ unsigned_value w = 3 * 2 ^ 13 + a * 2 ^ 10 + i.
Proof.
  intros Hm Hop Hsplit HA Ha HI Hi.
  destruct (register_field A a HA Ha) as (fa & Hfa & Hla & Hba & Hva).
  destruct (unsigned_field I i 10 ltac:(lia) HI ltac:(simpl; lia))
    as (fi & Hfi & Hli & Hbi & Hvi).
  change (Z.of_nat 10) with 10 in *.
  unfold assemble_line. rewrite Hm. cbn [bind subscript].
  rewrite Hsplit, Hop. decide_mnemonic. cbn [unpack2 bind].
  rewrite Hfa, Hfi. eexists.
  replace (opcodes !! ("lui" : str)) with (Some ("011" : str))
    by (by vm_compute).
  cbn [concat_opcode bind].
  split; [reflexivity|].
  split; [rewrite !length_app, Hla, Hli; done|].
  split; [word_binary | word_value].
Qed.


(** X10.  The RI format.  For [lui] with a register literal in [0..7]
    and an immediate in [0..1023], the word is 16 binary digits: the
    opcode [011], the register (3 bits) and the immediate (10 bits,
    unsigned). *)
Theorem assemble_RI (line : str) (m : groups) (A I : str) (a i : Z) :
  line_match line = Some m →
  m2 m = "lui" →
  Py.split (m3 m) "," = [A; I] →
  parse_num A = Ok a → 0 ≤ a ≤ 7 →
  parse_num I = Ok i → 0 ≤ i ≤ 1023 →
  ∃ w,
    assemble_line line = Ok (Some w)
    ∧ length w = 16%nat
    ∧ binary w
    ∧ unsigned_value w = 3 * 2 ^ 13 + a * 2 ^ 10 + i.
Proof. apply lui_word. Qed.

Lemma assemble_RI_witness :
  ∃ w,
    assemble_line "lui 2,1023" = Ok (Some w)
    ∧ length w = 16%nat
    ∧ binary w
    ∧ unsigned_value w = 3 * 2 ^ 13 + 2 * 2 ^ 10 + 1023.
Proof.
  apply (assemble_RI "lui 2,1023" (Groups None "lui" "2,1023") "2" "1023");
    try (by vm_compute); lia.
Defined.

Lemma imm7_of_imm6 (I : str) (i : Z) :
  parse_num I = Ok i →
  0 ≤ i ≤ 63 →
  ∃ u, imm_to_bin I 6 false = Ok u
       ∧ imm_to_bin I 7 true = Ok ("0"%char :: u).
Proof.
  intros HI Hi.
  destruct (unsigned_field I i 6 ltac:(lia) HI ltac:(simpl; lia))
    as (u & Hu & Hlu & Hbu & Hvu).
  destruct (signed_field I i 7 ltac:(lia) HI ltac:(simpl; lia))
    as (s & Hs & Hls & Hbs & _ & Hvs).
  change (Z.of_nat 6) with 6 in *. change (Z.of_nat 7) with 7 in *.
  exists u. split; [done|]. rewrite Hs. do 2 f_equal.
  apply unsigned_value_inj.
  - done.
  - constructor; [by left | done].
  - simpl. lia.
  - rewrite Hvs. change ("0"%char :: u) with (replicate 1 "0"%char ++ u).
    rewrite unsigned_value_zeros, Hvu. apply Z.mod_small. simpl. lia.
Qed.

(** X11.  [lli] is [addi] with the same register twice: for an
    immediate in [0..63], [lli R,I] assembles to what [addi R,R,I]
    assembles to, the same word, or the same error when the register
    literal is rejected. *)
Theorem lli_is_addi (l1 l2 : str) (m m' : groups) (R I : str) (i : Z) :
  line_match l1 = Some m →
  m2 m = "lli" →
  Py.split (m3 m) "," = [R; I] →
  line_match l2 = Some m' →
  m2 m' = "addi" →
  Py.split (m3 m') "," = [R; R; I] →
  parse_num I = Ok i →
  0 ≤ i ≤ 63 →
  assemble_line l1 = assemble_line l2.
Proof.
  intros Hm Hop Hsplit Hm' Hop' Hsplit' HI Hi.
  destruct (imm7_of_imm6 I i HI Hi) as (u & Hu & Hs).
  unfold assemble_line. rewrite Hm, Hm'. cbn [bind subscript].
  rewrite Hsplit, Hsplit', Hop, Hop'. decide_mnemonic.
  cbn [unpack2 unpack3 bind].
  destruct (imm_to_bin R 3 false) as [f|e]; [|done].
  replace (opcodes !! ("addi" : str)) with (Some ("001" : str))
    by (by vm_compute).
  cbn [bind concat_opcode]. rewrite Hu, Hs. cbn [bind].
  unfold Py.mul. simpl. by rewrite app_nil_r, <- !app_assoc.
Qed.

Lemma lli_is_addi_witness :
  assemble_line "lli 2,63" = assemble_line "addi 2,2,63".
Proof.
  apply (lli_is_addi "lli 2,63" "addi 2,2,63" (Groups None "lli" "2,63")
           (Groups None "addi" "2,2,63") "2" "63" 63);
    try (by vm_compute); lia.
Defined.

(** X12.  [.fill] stores its operand as a 16-bit two's-complement word:
    for a literal that denotes [v] in [-32768..32767] the word has 16
    binary digits and reads back as [v]. *)
Theorem assemble_fill (line : str) (m : groups) (v : Z) :
  line_match line = Some m →
  m2 m = ".fill" →
  parse_num (m3 m) = Ok v →
  -32768 ≤ v ≤ 32767 →
  ∃ w,
    assemble_line line = Ok (Some w)
    ∧ length w = 16%nat
    ∧ binary w
    ∧ signed_value w = v.
Proof.
  intros Hm Hop Hv Hrange.
  destruct (signed_field (m3 m) v 16 ltac:(lia) Hv ltac:(simpl; lia))
    as (f & Hf & Hlf & Hbf & Hvf & _).
  change (Z.of_nat 16) with 16 in *.
  unfold assemble_line. rewrite Hm. cbn [bind subscript].
  rewrite Hop. decide_mnemonic. rewrite Hf. by exists f.
Qed.

Lemma assemble_fill_witness :
  ∃ w,
    assemble_line "x: .fill -0x8000" = Ok (Some w)
    ∧ length w = 16%nat
    ∧ binary w
    ∧ signed_value w = -32768.
Proof.
  apply (assemble_fill "x: .fill -0x8000"
           (Groups (Some "x:") ".fill" "-0x8000"));
    try (by vm_compute); lia.
Defined.

(** X13.  The operand count is checked before any operand is read: with
    a number of comma-separated operands other than three for the RRI
    mnemonics, or other than two for [lui] and [lli], [assemble_line]
    raises the [ValueError] of the tuple unpacking. *)
Theorem assemble_wrong_operand_count (line : str) (m : groups) (n : nat) :
  line_match line = Some m →
  (m2 m, n) ∈ [("addi", 3%nat); ("sw", 3%nat); ("lw", 3%nat);
                ("beq", 3%nat); ("jalr", 3%nat);
                ("lui", 2%nat); ("lli", 2%nat)] →
  length (Py.split (m3 m) ",") ≠ n →
  assemble_line line = Raise (ValueError_unpack n).
Proof.
  intros Hm Hop Hlen. unfold assemble_line. rewrite Hm.
  cbn [bind subscript].
  mnemonic_cases Hop; injection Hop as Hop ->; rewrite Hop;
    decide_mnemonic;
    destruct (Py.split (m3 m) ",") as [|x1 [|x2 [|x3 [|x4 l]]]];
    done.
Qed.

Lemma assemble_wrong_operand_count_witness :
  assemble_line "lw 1,2" = Raise (ValueError_unpack 3).
Proof.
  apply (assemble_wrong_operand_count "lw 1,2" (Groups None "lw" "1,2") 3).
  - by vm_compute.
  - by apply (bool_decide_unpack _).
  - by vm_compute.
Defined.

(** X14.  A line whose mnemonic is none of the twelve that
    [assemble_line] tests for raises nothing: the function returns
    [None] for it, whatever its operands are. *)
Theorem assemble_unknown_mnemonic (line : str) (m : groups) :
  line_match line = Some m →
  m2 m ∉ recognized →
  assemble_line line = Ok None.
Proof. apply assemble_line_unknown. Qed.

Lemma assemble_unknown_mnemonic_witness :
  assemble_line "x: sub 1,2,3" = Ok None.
Proof.
  apply (assemble_unknown_mnemonic "x: sub 1,2,3"
           (Groups (Some "x:") "sub" "1,2,3")).
  - by vm_compute.
  - intros H. apply (bool_decide_pack _) in H. by vm_compute in H.
Defined.

(** X15.  Every word [assemble_line] returns for a mnemonic other than
    [nop] is a string of exactly 16 characters, each [0] or [1]. *)
Theorem assembled_word_width (line : str) (m : groups) (w : str) :
  line_match line = Some m →
  m2 m ≠ "nop" →
  assemble_line line = Ok (Some w) →
  length w = 16%nat ∧ binary w.
Proof. apply assemble_line_word_16. Qed.

Lemma assembled_word_width_witness :
  length ("0010100100111111" : str) = 16%nat ∧ binary "0010100100111111".
Proof.
  apply (assembled_word_width "lli 2,63" (Groups None "lli" "2,63"));
    by vm_compute.
Defined.

Lemma lli_word (line : str) (m : groups) (A I : str) (a i : Z) :
  line_match line = Some m →
  m2 m = "lli" →
  Py.split (m3 m) "," = [A; I] →
  parse_num A = Ok a → 0 ≤ a ≤ 7 →
  parse_num I = Ok i → 0 ≤ i ≤ 63 →
  ∃ w,
    assemble_line line = Ok (Some w)
    ∧ length w = 16%nat
    ∧ binary w
    ∧ unsigned_value w = 1 * 2 ^ 13 + a * 2 ^ 10 + a * 2 ^ 7 + i.
Proof.
  intros Hm Hop Hsplit HA Ha HI Hi.
  destruct (register_field A a HA Ha) as (fa & Hfa & Hla & Hba & Hva).
  destruct (unsigned_field I i 6 ltac:(lia) HI ltac:(simpl; lia))
    as (fi & Hfi & Hli & Hbi & Hvi).
  change (Z.of_nat 6) with 6 in *.
  unfold assemble_line. rewrite Hm. cbn [bind subscript].
  rewrite Hsplit, Hop. decide_mnemonic. cbn [unpack2 bind].
  rewrite Hfa, Hfi. eexists. cbn [bind].
  unfold Py.mul. simpl mjoin. rewrite app_nil_r.
  split; [reflexivity|].
  split; [rewrite !length_app, Hla, Hli; done|].
  split; [word_binary | word_value].
Qed.

(** ** The preprocessor, continued *)

Lemma drop_while_idem (p : ascii → bool) (s : str) :
  drop_while p (drop_while p s) = drop_while p s.
Proof.
  destruct (drop_while p s) as [|c t] eqn:H; [done|].
  simpl. by rewrite (drop_while_head _ _ _ _ H).
Qed.

Lemma rstrip_prefix (t : str) : ∃ ws, t = Py.rstrip t ++ ws.
Proof.
  unfold Py.rstrip, Py.lstrip.
  exists (rev (take_while Py.isspace (rev t))).
  rewrite <- rev_app_distr, take_drop_while. by rewrite rev_involutive.
Qed.

Lemma strip_strip (s : str) : Py.strip (Py.strip s) = Py.strip s.
Proof.
  assert (Py.rstrip (Py.strip s) = Py.strip s) as Hr.
  { unfold Py.strip, Py.rstrip, Py.lstrip.
    by rewrite rev_involutive, drop_while_idem. }
  assert (Py.lstrip (Py.strip s) = Py.strip s) as Hl.
  { unfold Py.strip. destruct (rstrip_prefix (Py.lstrip s)) as [ws Hws].
    destruct (Py.rstrip (Py.lstrip s)) as [|c u] eqn:Hu; [done|].
    unfold Py.lstrip in *. simpl in *.
    by rewrite (drop_while_head _ _ _ _ Hws). }
  unfold Py.strip at 1. by rewrite Hl, Hr.
Qed.

Lemma has_code_strip (l : str) : has_code (Py.strip l) = has_code l.
Proof. by rewrite !has_code_spec, strip_strip. Qed.

Lemma preprocess_strip (code : list str) :
  preprocess (Py.strip <$> code) = preprocess code.
Proof.
  unfold preprocess. induction code as [|l code IH]; [done|].
  rewrite fmap_cons, !filter_cons, has_code_strip.
  destruct (decide (has_code l = true)); [|done].
  by rewrite !fmap_cons, strip_strip, IH.
Qed.

Lemma preprocess_preprocess (code : list str) :
  preprocess (preprocess code) = preprocess code.
Proof.
  rewrite <- (preprocess_strip code) at 2. unfold preprocess.
  induction code as [|l code IH]; [done|].
  rewrite fmap_cons, !filter_cons, has_code_strip.
  destruct (decide (has_code l = true)) as [Hl|]; [|done].
  rewrite !fmap_cons, filter_cons, has_code_strip, decide_True by done.
  by rewrite fmap_cons, IH.
Qed.

(** X16.  What the preprocessor keeps: in order, the trimmed form of
    exactly the lines whose trimmed form does not start with [#].  The
    second disjunct of [has_code] never changes its answer, so lines
    that are empty after trimming are kept, as empty strings. *)
Theorem preprocess_keeps (code : list str) :
  preprocess code
  = filter (λ l, Py.startswith l "#" = false) (Py.strip <$> code)
  ∧ ∀ line, has_code line = negb (Py.startswith (Py.strip line) "#").
Proof. split; [apply preprocess_spec | apply has_code_spec]. Qed.

(** X17.  Preprocessing is idempotent, and it does not see white space
    around a line: every line it returns is already trimmed, and a
    program whose lines were trimmed beforehand is preprocessed to the
    same lines. *)
Theorem preprocess_idempotent (code : list str) :
  preprocess (preprocess code) = preprocess code
  ∧ preprocess (Py.strip <$> code) = preprocess code
  ∧ Forall (λ l, Py.strip l = l) (preprocess code).
Proof.
  split; [apply preprocess_preprocess|]. split; [apply preprocess_strip|].
  unfold preprocess. apply Forall_fmap, Forall_forall. intros l _.
  apply strip_strip.
Qed.

(** ** The expander, continued *)

Lemma convert_line_primitive (l : str) :
  primitive l → convert_line l = Ok [l].
Proof.
  intros (m & Hm & Hspace & Hmovi). unfold convert_line. rewrite Hm.
  cbn [bind subscript]. by rewrite !bool_decide_eq_false_2.
Qed.

Lemma primitive_with_label (label : option str) (c : ascii) (t : str)
    (m : groups) :
  is_label label →
  Py.isspace c = true →
  instr_at None (c :: t) = Some m →
  m2 m ≠ ".space" →
  m2 m ≠ "movi" →
  primitive (default "" label ++ c :: t).
Proof.
  intros Hlabel Hc Hm Hspace Hmovi.
  exists (Groups label (m2 m) (m3 m)).
  split; [by apply line_match_with_label | done].
Qed.

Lemma convert_line_output (l : str) (new : list str) :
  convert_line l = Ok new → Forall primitive new.
Proof.
  unfold convert_line.
  destruct (line_match l) as [m|] eqn:Hm; [|done]. cbn [bind subscript].
  pose proof (line_match_is_label l m Hm) as Hlabel.
  case_bool_decide as Hspace.
  { destruct (Py.int (m3 m) 10) as [n|]; [|done]. intros [= <-].
    constructor.
    - by apply (primitive_with_label _ " "%char ".fill 0"
                  (Groups None ".fill" "0")).
    - apply Forall_replicate. by exists (Groups None ".fill" "0"). }
  case_bool_decide as Hmovi.
  { destruct (unpack2 (Py.split (m3 m) ",")) as [[regA imm]|]; [|done].
    cbn [bind fst snd]. destruct (Py.int imm 10) as [v|]; [|done].
    intros [= <-]. constructor; [|constructor; [|done]].
    - by eapply (primitive_with_label _ nbsp).
    - eexists. split; [rewrite line_match_eq; reflexivity | done]. }
  intros [= <-]. constructor; [|done]. by exists m.
Qed.

Lemma convert_pseudoinstructions_app (p q : list str) :
  convert_pseudoinstructions (p ++ q)
  = (x <- convert_pseudoinstructions p ;;
     y <- convert_pseudoinstructions q ;;
     Ok (x ++ y)).
Proof.
  induction p as [|l p IH].
  - simpl. change (convert_pseudoinstructions []) with (@Ok (list str) []).
    cbn [bind]. by destruct (convert_pseudoinstructions q).
  - rewrite <- app_comm_cons, !convert_pseudoinstructions_cons, IH.
    destruct (convert_line l) as [new|]; [|done]. cbn [bind].
    destruct (convert_pseudoinstructions p) as [x|]; [|done]. cbn [bind].
    destruct (convert_pseudoinstructions q) as [y|]; [|done]. cbn [bind].
    by rewrite app_assoc.
Qed.

Lemma convert_primitive (p : list str) :
  Forall primitive p → convert_pseudoinstructions p = Ok p.
Proof.
  induction 1 as [|l p Hl _ IH]; [done|].
  rewrite convert_pseudoinstructions_cons, (convert_line_primitive l Hl), IH.
  done.
Qed.

Lemma convert_output (p p' : list str) :
  convert_pseudoinstructions p = Ok p' → Forall primitive p'.
Proof.
  revert p'. induction p as [|l p IH]; intros p'.
  - by intros [= <-].
  - rewrite convert_pseudoinstructions_cons.
    destruct (convert_line l) as [new|] eqn:Hl; [|done]. cbn [bind].
    destruct (convert_pseudoinstructions p) as [x|]; [|done]. cbn [bind].
    intros [= <-]. apply Forall_app. split; [|by apply IH].
    by apply (convert_line_output l).
Qed.

(** X18.  No pseudo-instruction is left after the expansion: every line
    the expander returns is matched by the pattern with a mnemonic other
    than [.space] and [movi], and expanding its result again changes
    nothing. *)
Theorem expansion_is_primitive (p p' : list str) :
  convert_pseudoinstructions p = Ok p' →
  Forall primitive p' ∧ convert_pseudoinstructions p' = Ok p'.
Proof.
  intros H%convert_output. split; [done | by apply convert_primitive].
Qed.

Lemma expansion_is_primitive_witness :
  Forall primitive
    ["x: .fill 0"; ".fill 0"; "y:" ++ nbsp :: "lui 1,1"; "lli 1,1"; "halt"]
  ∧ convert_pseudoinstructions
      ["x: .fill 0"; ".fill 0"; "y:" ++ nbsp :: "lui 1,1"; "lli 1,1"; "halt"]
    = Ok ["x: .fill 0"; ".fill 0"; "y:" ++ nbsp :: "lui 1,1"; "lli 1,1";
          "halt"].
Proof.
  apply (expansion_is_primitive ["x: .space 2"; "y: movi 1,65"; "halt"]).
  by vm_compute.
Defined.

(** X19.  The expander treats each line on its own and keeps the order:
    the expansion of two programs put one after the other is the
    expansion of the first followed by that of the second, and fails with
    the error of the first when that fails, else of the second. *)
Theorem expansion_of_append (p q : list str) :
  convert_pseudoinstructions (p ++ q)
  = (x <- convert_pseudoinstructions p ;;
     y <- convert_pseudoinstructions q ;;
     Ok (x ++ y)).
Proof. apply convert_pseudoinstructions_app. Qed.

(** X20.  [.space] as the code has it.  On a line with the mnemonic
    [.space] whose operand [int] reads as [n], the expander returns
    [max(n, 1)] lines.  The first is the instruction [.fill 0] under the
    label of the line, the others are [.fill 0] without a label, and each
    of them assembles to the word of sixteen zeros. *)
Theorem space_expansion (line : str) (m : groups) (n : Z) :
  line_match line = Some m →
  m2 m = ".space" →
  Py.int (m3 m) 10 = Ok n →
  ∃ first,
    convert_pseudoinstructions [line]
    = Ok (first :: replicate (Z.to_nat (n - 1)) ".fill 0")
    ∧ Z.of_nat
        (length (first :: replicate (Z.to_nat (n - 1)) (".fill 0" : str)))
      = Z.max n 1
    ∧ line_match first = Some (Groups (m1 m) ".fill" "0")
    ∧ line_match ".fill 0" = Some (Groups None ".fill" "0")
    ∧ Forall (λ l, assemble_line l = Ok (Some "0000000000000000"))
        (first :: replicate (Z.to_nat (n - 1)) ".fill 0").
Proof.
  intros Hm Hop Hn. exists (default "" (m1 m) ++ " .fill 0").
  assert (line_match (default "" (m1 m) ++ " .fill 0")
          = Some (Groups (m1 m) ".fill" "0")) as Hfirst.
  { apply (line_match_with_label (m1 m) " "%char ".fill 0"
             (Groups None ".fill" "0")); [|done|done].
    by eapply line_match_is_label. }
  split; [|split; [|split; [done|split; [by vm_compute|]]]].
  - rewrite convert_pseudoinstructions_single.
    by apply (convert_space line m n).
  - simpl. rewrite length_replicate. lia.
  - constructor.
    + rewrite (assemble_line_groups _ ".fill 0" _ (Groups None ".fill" "0")
                 Hfirst); by vm_compute.
    + apply Forall_replicate. by vm_compute.
Qed.

Lemma space_expansion_witness :
  ∃ first,
    convert_pseudoinstructions ["buf: .space 3"]
    = Ok (first :: replicate (Z.to_nat (3 - 1)) ".fill 0")
    ∧ Z.of_nat
        (length (first :: replicate (Z.to_nat (3 - 1)) (".fill 0" : str)))
      = Z.max 3 1
    ∧ line_match first = Some (Groups (Some "buf:") ".fill" "0")
    ∧ line_match ".fill 0" = Some (Groups None ".fill" "0")
    ∧ Forall (λ l, assemble_line l = Ok (Some "0000000000000000"))
        (first :: replicate (Z.to_nat (3 - 1)) ".fill 0").
Proof.
  apply (space_expansion "buf: .space 3" (Groups (Some "buf:") ".space" "3"));
    by vm_compute.
Defined.

(** ** [movi], from the source line to the two machine words *)

Lemma convert_line_movi (label : option str) (R V : str) (v : Z) :
  is_label label →
  operand_text R →
  operand_text V →
  Py.int V 10 = Ok v →
  convert_line (label_prefix label ++ "movi " ++ R ++ "," ++ V)
  = Ok [default "" label ++ nbsp :: "lui " ++ R ++ ","
          ++ Py.str_of_int (v `div` 64);
        "lli " ++ R ++ "," ++ Py.str_of_int (v `mod` 64)].
Proof.
  intros Hlabel HR HV Hv. unfold convert_line.
  rewrite (line_match_movi label _ Hlabel). cbn [bind subscript m1 m2 m3].
  rewrite bool_decide_eq_false_2 by done.
  rewrite bool_decide_eq_true_2 by done.
  rewrite take_while_id.
  2:{ apply Forall_app. split; [by apply operand_text_isdot|].
      constructor; [done | by apply operand_text_isdot]. }
  change ("," ++ V) with (","%char :: V).
  rewrite split_app_sep by (by apply operand_text_no_comma).
  rewrite split_no_sep by (by apply operand_text_no_comma).
  cbn [unpack2 bind fst snd]. rewrite Hv. reflexivity.
Qed.

Lemma line_match_lui_line (label : option str) (R : str) (n : Z) :
  is_label label →
  operand_text R →
  line_match (default "" label ++ nbsp :: "lui " ++ R ++ ","
                ++ Py.str_of_int n)
  = Some (Groups label "lui" (R ++ "," ++ Py.str_of_int n)).
Proof.
  intros Hlabel HR. rewrite <- (operands_isdot R n HR) at 2.
  by apply (line_match_with_label label nbsp
              ("lui " ++ R ++ "," ++ Py.str_of_int n)
              (Groups None "lui"
                 (take_while Py.isdot (R ++ "," ++ Py.str_of_int n)))).
Qed.

Lemma line_match_lli_line (R : str) (n : Z) :
  operand_text R →
  line_match ("lli " ++ R ++ "," ++ Py.str_of_int n)
  = Some (Groups None "lli" (R ++ "," ++ Py.str_of_int n)).
Proof.
  intros HR. rewrite <- (operands_isdot R n HR) at 2.
  rewrite line_match_eq. reflexivity.
Qed.

Lemma split_operands (R : str) (n : Z) :
  operand_text R →
  Py.split (R ++ "," ++ Py.str_of_int n) "," = [R; Py.str_of_int n].
Proof.
  intros HR. change ("," ++ Py.str_of_int n) with (","%char :: Py.str_of_int n).
  rewrite split_app_sep by (by apply operand_text_no_comma).
  rewrite split_no_sep; [done|].
  by apply decimal_chars_notin; [apply str_of_int_chars | |].
Qed.

(** X21.  [movi] end to end.  A line [movi R,V], with or without a
    label, where [R] is a register literal in [0..7] and [int] reads [V]
    as [v], is expanded to two lines.  For [0 <= v <= 65535] both
    assemble: the first to the [lui] word with the immediate [v // 64],
    the second to the [lli] word with the immediate [v % 64], and 64
    times the ten low bits of the first plus the six low bits of the
    second is [v].  For every other [v] the first line is refused by
    [imm_to_bin], with the range error on [v // 64]. *)
Theorem movi_loads_constant (label : option str) (R V : str) (r v : Z) :
  is_label label →
  operand_text R →
  operand_text V →
  parse_num R = Ok r →
  0 ≤ r ≤ 7 →
  Py.int V 10 = Ok v →
  ∃ l1 l2,
    convert_pseudoinstructions [label_prefix label ++ "movi " ++ R ++ "," ++ V]
    = Ok [l1; l2]
    ∧ (0 ≤ v ≤ 65535 →
       ∃ hi lo,
         assemble_line l1 = Ok (Some hi)
         ∧ assemble_line l2 = Ok (Some lo)
         ∧ length hi = 16%nat ∧ length lo = 16%nat
         ∧ unsigned_value hi = 3 * 2 ^ 13 + r * 2 ^ 10 + v `div` 64
         ∧ unsigned_value lo = 1 * 2 ^ 13 + r * 2 ^ 10 + r * 2 ^ 7 + v `mod` 64
         ∧ 64 * (unsigned_value hi `mod` 2 ^ 10) + unsigned_value lo `mod` 2 ^ 6
           = v)
    ∧ (¬ 0 ≤ v ≤ 65535 →
       assemble_line l1
       = Raise (ValueError_out_of_range (v `div` 64) 0 1023)).
Proof.
  intros Hlabel HR HV Hr Hrange Hv. eexists _, _.
  split; [|split].
  - rewrite convert_pseudoinstructions_single.
    by apply convert_line_movi.
  - intros Hvr.
    destruct (lui_word _ _ R (Py.str_of_int (v `div` 64)) r (v `div` 64)
                (line_match_lui_line label R (v `div` 64) Hlabel HR))
      as (hi & Hhi & Hlhi & _ & Hvhi);
      [done | by apply split_operands | done | done
       | apply parse_num_str_of_int
       | split; [apply Z.div_pos; lia|];
         apply Z.lt_succ_r, Z.div_lt_upper_bound; lia
       |].
    destruct (lli_word _ _ R (Py.str_of_int (v `mod` 64)) r (v `mod` 64)
                (line_match_lli_line R (v `mod` 64) HR))
      as (lo & Hlo & Hllo & _ & Hvlo);
      [done | by apply split_operands | done | done
       | apply parse_num_str_of_int
       | pose proof (Z.mod_pos_bound v 64); lia
       |].
    exists hi, lo. repeat (split; [done|]).
    rewrite Hvhi, Hvlo.
    pose proof (Z.mod_pos_bound v 64 ltac:(lia)) as Hm.
    assert (0 ≤ v `div` 64 < 1024) as Hd.
    { split; [apply Z.div_pos; lia | apply Z.div_lt_upper_bound; lia]. }
    replace (3 * 2 ^ 13 + r * 2 ^ 10 + v `div` 64)
      with (v `div` 64 + (24 + r) * 2 ^ 10) by lia.
    replace (1 * 2 ^ 13 + r * 2 ^ 10 + r * 2 ^ 7 + v `mod` 64)
      with (v `mod` 64 + (128 + 18 * r) * 2 ^ 6) by lia.
    rewrite !Z_mod_plus_full, !Z.mod_small by lia.
    pose proof (Z.div_mod v 64 ltac:(lia)). lia.
  - intros Hvr.
    destruct (register_field R r Hr Hrange) as (fa & Hfa & _).
    unfold assemble_line.
    rewrite (line_match_lui_line label R (v `div` 64) Hlabel HR).
    cbn [bind subscript m1 m2 m3]. decide_mnemonic.
    rewrite split_operands by done. cbn [unpack2 bind]. rewrite Hfa.
    replace (opcodes !! ("lui" : str)) with (Some ("011" : str))
      by (by vm_compute).
    cbn [concat_opcode bind].
    rewrite (imm_to_bin_out_of_range _ 10 (v `div` 64) false
               (parse_num_str_of_int _)); [done|].
    unfold in_range. intros [H0 H1]. apply Hvr.
    change (2 ^ 10 - 1) with 1023 in H1.
    pose proof (Z.div_mod v 64 ltac:(lia)).
    pose proof (Z.mod_pos_bound v 64 ltac:(lia)). lia.
Qed.

Lemma movi_loads_constant_witness :
  ∃ l1 l2,
    convert_pseudoinstructions [label_prefix (Some "top:") ++ "movi " ++ "3"
                                  ++ "," ++ "1000"]
    = Ok [l1; l2]
    ∧ (0 ≤ 1000 ≤ 65535 →
       ∃ hi lo,
         assemble_line l1 = Ok (Some hi)
         ∧ assemble_line l2 = Ok (Some lo)
         ∧ length hi = 16%nat ∧ length lo = 16%nat
         ∧ unsigned_value hi = 3 * 2 ^ 13 + 3 * 2 ^ 10 + 1000 `div` 64
         ∧ unsigned_value lo
           = 1 * 2 ^ 13 + 3 * 2 ^ 10 + 3 * 2 ^ 7 + 1000 `mod` 64
         ∧ 64 * (unsigned_value hi `mod` 2 ^ 10)
           + unsigned_value lo `mod` 2 ^ 6
           = 1000)
    ∧ (¬ 0 ≤ 1000 ≤ 65535 →
       assemble_line l1
       = Raise (ValueError_out_of_range (1000 `div` 64) 0 1023)).
Proof.
  apply (movi_loads_constant (Some "top:") "3" "1000" 3 1000).
  - right. exists "top". split; [|done].
    split; [done | by repeat constructor].
  - by repeat constructor.
  - by repeat constructor.
  - by vm_compute.
  - lia.
  - by vm_compute.
Defined.

(** ** Labels: the pattern and the dictionary *)

Lemma line_match_label_prefix (s : str) (m : groups) (l : str) :
  line_match s = Some m →
  m1 m = Some l →
  ∃ X t, label_name X ∧ l = X ++ ":" ∧ s = X ++ ":" ++ t.
Proof.
  rewrite line_match_eq. unfold line_match_spec.
  pose proof (take_while_all Py.isword s) as Hall.
  pose proof (take_drop_while Py.isword s) as Hsplit.
  assert (instr_at None s = Some m → m1 m = Some l → False) as Hnone.
  { intros [H _]%(instr_at_label _ None). congruence. }
  destruct (take_while Py.isword s) as [|x xs]; [intros; exfalso; auto|].
  destruct (drop_while Py.isword s) as [|c rest]; [intros; exfalso; auto|].
  case_bool_decide as Hc; [|intros; exfalso; auto].
  destruct_labelled m' Hm'; [|intros; exfalso; auto].
  intros [= <-] Hl. apply (instr_at_label _ None) in Hm' as [Hm' _].
  exists (x :: xs), rest. split; [by split|].
  split; [congruence|]. by rewrite <- Hsplit, Hc.
Qed.

(** X22.  The pattern and the label dictionary read labels in two
    different ways, and they agree where both see one.  When the pattern
    finds the label group [l] on a line, [l] is a name [X] of word
    characters and a colon at the start of the line; the dictionary
    records no other name than [X] for that line, and it does record [X]
    when a blank follows the colon. *)
Theorem pattern_label_in_LABELS (line : str) (m : groups) (l : str) :
  line_match line = Some m →
  m1 m = Some l →
  ∃ X t,
    label_name X ∧ l = X ++ ":" ∧ line = l ++ t
    ∧ (∀ Y, label_of line = Some Y → Y = X)
    ∧ (∀ t', t = " " ++ t' → label_of line = Some X).
Proof.
  intros Hm Hl.
  destruct (line_match_label_prefix line m l Hm Hl)
    as (X & t & [Hne HX] & -> & ->).
  exists X, t. split; [done|]. split; [done|].
  split; [by rewrite <- app_assoc|]. split.
  - intros Y. rewrite label_of_colon_head by done.
    destruct (Py.endswith _ _); congruence.
  - intros t' ->. by apply label_of_blank.
Qed.

Lemma pattern_label_in_LABELS_witness :
  ∃ X t,
    label_name X ∧ ("loop:" : str) = X ++ ":"
    ∧ ("loop: addi 1,1,-1" : str) = "loop:" ++ t
    ∧ (∀ Y, label_of "loop: addi 1,1,-1" = Some Y → Y = X)
    ∧ (∀ t', t = " " ++ t' → label_of "loop: addi 1,1,-1" = Some X).
Proof.
  apply (pattern_label_in_LABELS "loop: addi 1,1,-1"
           (Groups (Some "loop:") "addi" "1,1,-1") "loop:");
    by vm_compute.
Defined.

(** X23.  A label alone on a line, [X:], is not a label for the
    pattern: the group of the label needs an instruction after it, so
    the pattern backtracks and takes [X] as the mnemonic and the colon as
    its operand text.  When [X] is none of the recognised mnemonics,
    [assemble_line] returns [None] for the line, without an error, while
    the dictionary does record [X]. *)
Theorem label_alone_on_a_line (X : str) :
  label_name X →
  X ∉ recognized →
  line_match (X ++ ":") = Some (Groups None X ":")
  ∧ assemble_line (X ++ ":") = Ok None
  ∧ label_of (X ++ ":") = Some X.
Proof.
  intros [Hne HX] Hrec.
  assert (line_match (X ++ ":") = Some (Groups None X ":")) as Hm.
  { rewrite line_match_eq. unfold line_match_spec.
    rewrite take_while_app, drop_while_app by done.
    cbn [app take_while drop_while Py.isword].
    change (Py.isword ":") with false. cbn match. rewrite app_nil_r.
    destruct X as [|x xs]; [done|]. cbn [app].
    rewrite bool_decide_eq_true_2 by done.
    change (instr_at (Some ((x :: xs) ++ ":")) []) with (@None groups).
    cbn match. unfold instr_at.
    pose proof HX as [Hx Hxs]%Forall_cons.
    cbn [drop_while]. rewrite (isword_not_space x Hx). unfold op_at.
    rewrite bool_decide_eq_false_2 by (by apply isword_not_dot).
    unfold word_at. rewrite app_comm_cons.
    rewrite take_while_app, drop_while_app by done.
    cbn [app take_while drop_while Py.isword].
    change (Py.isword ":") with false. cbn match. by rewrite app_nil_r. }
  split; [done|]. split.
  - by apply (assemble_line_unknown _ (Groups None X ":")).
  - unfold label_of. rewrite (partition_no_sep (X ++ ":") " ").
    + cbn [fst]. rewrite endswith_snoc, bool_decide_eq_true_2 by done.
      by rewrite (partition_app_sep X [] ":") by (by apply word_notin).
    + intros [Hin | Hin]%elem_of_app.
      * by apply (word_notin X " "%char HX).
      * by apply list_elem_of_singleton in Hin.
Qed.

Lemma label_alone_on_a_line_witness :
  line_match ("loop" ++ ":") = Some (Groups None "loop" ":")
  ∧ assemble_line ("loop" ++ ":") = Ok None
  ∧ label_of ("loop" ++ ":") = Some ("loop" : str).
Proof.
  apply (label_alone_on_a_line "loop").
  - split; [done | by repeat constructor].
  - unfold recognized. intros H. mnemonic_cases H; done.
Defined.

(** X24.  The label of a [movi] line is lost for the dictionary.  The
    source line [X: movi R,V] carries the label [X], and the pattern
    still finds the label group [X:] on the first line of its expansion.
    But the expander writes a no-break space, and no blank, between the
    label and [lui], so the first blank-separated field of that line runs
    to the end of [lui] and does not end with a colon:
    neither line of the expansion carries a label, and the dictionary
    built from them is empty. *)
Theorem movi_label_not_recorded (X R V : str) (v : Z) :
  label_name X →
  operand_text R →
  operand_text V →
  Py.int V 10 = Ok v →
  ∃ l1 l2,
    convert_pseudoinstructions [X ++ ": movi " ++ R ++ "," ++ V]
    = Ok [l1; l2]
    ∧ label_of (X ++ ": movi " ++ R ++ "," ++ V) = Some X
    ∧ (∃ m, line_match l1 = Some m ∧ m1 m = Some (X ++ ":"))
    ∧ label_of l1 = None
    ∧ label_of l2 = None
    ∧ LABELS [l1; l2] = ∅.
Proof.
  intros HX HR HV Hv.
  assert (is_label (Some (X ++ ":"))) as Hlabel by (right; eauto).
  set (l1 := X ++ ":" ++ nbsp :: "lui " ++ R ++ ","
               ++ Py.str_of_int (v `div` 64)).
  set (l2 := "lli " ++ R ++ "," ++ Py.str_of_int (v `mod` 64)).
  assert (default "" (Some (X ++ ":")) ++ nbsp :: "lui " ++ R ++ ","
            ++ Py.str_of_int (v `div` 64) = l1) as Hl1eq.
  { change (default "" (Some (X ++ ":"))) with (X ++ ":").
    by rewrite <- app_assoc. }
  assert (label_prefix (Some (X ++ ":")) ++ "movi " ++ R ++ "," ++ V
          = X ++ ": movi " ++ R ++ "," ++ V) as Hsrc.
  { unfold label_prefix. by rewrite <- !app_assoc. }
  assert (label_of l1 = None) as Hl1.
  { destruct HX as [_ HX]. unfold l1. rewrite label_of_colon_head by done.
    replace (X ++ ":" ++ nbsp :: "lui " ++ R ++ ","
               ++ Py.str_of_int (v `div` 64))
      with (((X ++ ":" ++ nbsp :: "lu") ++ ["i"%char]) ++ " "%char
              :: R ++ "," ++ Py.str_of_int (v `div` 64))
      by (by rewrite <- !app_assoc).
    rewrite partition_app_sep.
    - cbn [fst]. by rewrite endswith_snoc.
    - intros [[Hin | Hin]%elem_of_app | Hin]%elem_of_app.
      + by apply (word_notin X " "%char HX).
      + revert Hin. apply (bool_decide_unpack _). by vm_compute.
      + by apply list_elem_of_singleton in Hin. }
  assert (label_of l2 = None) as Hl2 by done.
  exists l1, l2. split; [|split; [|split; [|split; [|split]]]].
  - rewrite convert_pseudoinstructions_single, <- Hsrc, <- Hl1eq.
    by apply convert_line_movi.
  - destruct HX as [_ HX].
    by apply (label_of_blank X ("movi " ++ R ++ "," ++ V)).
  - eexists. split; [rewrite <- Hl1eq; by apply line_match_lui_line|].
    reflexivity.
  - exact Hl1.
  - exact Hl2.
  - change [l1; l2] with ([l1] ++ [l2]). rewrite LABELS_snoc, Hl2.
    change [l1] with ([] ++ [l1]). by rewrite LABELS_snoc, Hl1.
Qed.

Lemma movi_label_not_recorded_witness :
  ∃ l1 l2,
    convert_pseudoinstructions ["top" ++ ": movi " ++ "3" ++ "," ++ "1000"]
    = Ok [l1; l2]
    ∧ label_of ("top" ++ ": movi " ++ "3" ++ "," ++ "1000") = Some ("top" : str)
    ∧ (∃ m, line_match l1 = Some m ∧ m1 m = Some ("top" ++ ":"))
    ∧ label_of l1 = None
    ∧ label_of l2 = None
    ∧ LABELS [l1; l2] = ∅.
Proof.
  apply (movi_label_not_recorded "top" "3" "1000" 1000).
  - split; [done | by repeat constructor].
  - by repeat constructor.
  - by repeat constructor.
  - by vm_compute.
Defined.

(** ** [assemble_code], continued *)

Lemma preprocess_app (p q : list str) :
  preprocess (p ++ q) = preprocess p ++ preprocess q.
Proof. unfold preprocess. by rewrite filter_app, fmap_app. Qed.

Lemma printed_app (p q : list str) (wp wq : list (option str)) :
  length p = length wp →
  printed (p ++ q) (wp ++ wq) = printed p wp ++ printed q wq.
Proof.
  intros Hlen. unfold printed.
  revert wp Hlen. induction p as [|l p IH]; intros [|w wp] Hlen;
    simplify_eq/=; [done|].
  by rewrite IH.
Qed.

Lemma assemble_code_Some (code : list str) (ws : list (option str)) :
  (assemble_code code).1 = Ok (Some ws) →
  ∃ expanded,
    convert_pseudoinstructions (preprocess code) = Ok expanded
    ∧ Forall2 (λ l w, assemble_line l = Ok w) expanded ws.
Proof.
  unfold assemble_code.
  destruct (convert_pseudoinstructions (preprocess code))
    as [expanded|e']; [|done].
  destruct (assemble_loop expanded [] []) as [r out] eqn:Hloop.
  simpl. intros [= ->]. exists expanded. split; [done|].
  by apply assemble_loop_Some in Hloop as (ws' & -> & H).
Qed.

(** X25.  The run without an error.  When every line of the expanded
    program assembles, [assemble_code] returns the results in the order
    of the lines, one per expanded line, and it has printed, for each
    line in turn, the line and then its result; no exception escapes. *)
Theorem assemble_code_success (code expanded : list str)
    (ws : list (option str)) :
  convert_pseudoinstructions (preprocess code) = Ok expanded →
  Forall2 (λ l w, assemble_line l = Ok w) expanded ws →
  assemble_code code = (Ok (Some ws), printed expanded ws)
  ∧ length ws = length expanded
  ∧ length (printed expanded ws) = (2 * length expanded)%nat.
Proof.
  intros Hexp Hall. split; [by apply assemble_code_all|].
  pose proof (Forall2_length _ _ _ Hall) as Hlen. split; [done|].
  clear Hexp. unfold printed.
  induction Hall as [|l w expanded ws _ _ IH]; [done|].
  simpl in *. rewrite IH; lia.
Qed.

Lemma assemble_code_success_witness :
  assemble_code ["# two words"; "buf: .space 1"; "  halt"]
  = (Ok (Some [Some "0000000000000000"; Some "1110000000000001"]),
     printed ["buf: .fill 0"; "halt"]
       [Some "0000000000000000"; Some "1110000000000001"])
  ∧ length [Some ("0000000000000000" : str); Some ("1110000000000001" : str)]
    = length ["buf: .fill 0" : str; "halt" : str]
  ∧ length (printed ["buf: .fill 0"; "halt"]
              [Some "0000000000000000"; Some "1110000000000001"])
    = (2 * length ["buf: .fill 0" : str; "halt" : str])%nat.
Proof.
  apply (assemble_code_success ["# two words"; "buf: .space 1"; "  halt"]).
  - by vm_compute.
  - repeat constructor; by vm_compute.
Defined.

(** X26.  Programs are assembled line by line: when two programs are
    each assembled without an error, so is the first followed by the
    second, and both the words and what is printed are those of the
    first followed by those of the second.  No word depends on the lines
    around its own. *)
Theorem assemble_code_append (p q : list str) (wp wq : list (option str)) :
  (assemble_code p).1 = Ok (Some wp) →
  (assemble_code q).1 = Ok (Some wq) →
  assemble_code (p ++ q)
  = (Ok (Some (wp ++ wq)), (assemble_code p).2 ++ (assemble_code q).2).
Proof.
  intros (ep & Hep & Hp)%assemble_code_Some (eq & Heq & Hq)%assemble_code_Some.
  rewrite (assemble_code_all p ep wp Hep Hp).
  rewrite (assemble_code_all q eq wq Heq Hq). cbn [snd].
  rewrite <- (printed_app ep eq wp wq) by (by eapply Forall2_length).
  apply assemble_code_all.
  - rewrite preprocess_app, convert_pseudoinstructions_app, Hep, Heq. done.
  - by apply Forall2_app.
Qed.

Lemma assemble_code_append_witness :
  assemble_code (["x: movi 1,65"] ++ ["halt"])
  = (Ok (Some ([Some "0110010000000001"; Some "0010010010000001"]
               ++ [Some "1110000000000001"])),
     (assemble_code ["x: movi 1,65"]).2 ++ (assemble_code ["halt"]).2).
Proof.
  apply (assemble_code_append ["x: movi 1,65"] ["halt"]); by vm_compute.
Defined.

Lemma convert_raises (p : list str) (l : str) (e : exn) :
  l ∈ p →
  convert_line l = Raise e →
  ∃ e', convert_pseudoinstructions p = Raise e'.
Proof.
  intros Hin Hl. induction p as [|a p IH]; [by apply elem_of_nil in Hin|].
  rewrite convert_pseudoinstructions_cons.
  destruct (convert_line a) as [new|ea] eqn:Ha; [|by eexists].
  cbn [bind]. apply elem_of_cons in Hin as [-> | Hin]; [congruence|].
  destruct (IH Hin) as (e' & ->). by eexists.
Qed.

(** X27.  A line that is not a comment and that the pattern does not
    match once it is trimmed (a blank line, for one) is fatal wherever it
    stands: the expander runs over the whole program before the [try]
    block is entered, so an exception escapes from [assemble_code], and
    nothing is assembled or printed, not even for the lines before it. *)
Theorem unmatched_line_is_fatal (code : list str) (l : str) :
  l ∈ code →
  has_code l = true →
  line_match (Py.strip l) = None →
  ∃ e, assemble_code code = (Raise e, []).
Proof.
  intros Hin Hcode Hm.
  assert (Py.strip l ∈ preprocess code) as Hpre.
  { unfold preprocess. apply list_elem_of_fmap_2.
    by apply list_elem_of_filter. }
  destruct (convert_raises _ _ TypeError_not_subscriptable Hpre)
    as (e & He).
  { unfold convert_line. by rewrite Hm. }
  exists e. unfold assemble_code. by rewrite He.
Qed.

Lemma unmatched_line_is_fatal_witness :
  ∃ e, assemble_code ["add 1,2,3"; "   "; "halt"] = (Raise e, []).
Proof.
  apply (unmatched_line_is_fatal ["add 1,2,3"; "   "; "halt"] "   ").
  - by repeat constructor.
  - by vm_compute.
  - by vm_compute.
Defined.

Lemma preprocess_comment (pre post : list str) (c : str) :
  Py.startswith (Py.strip c) "#" = true →
  preprocess (pre ++ c :: post) = preprocess (pre ++ post).
Proof.
  intros Hc. rewrite !preprocess_app. f_equal.
  unfold preprocess. rewrite filter_cons, decide_False; [done|].
  rewrite has_code_spec, Hc. done.
Qed.

(** X28.  Comments and surrounding white space do not reach the
    assembler: taking a comment line (one whose first character after
    white space is [#]) out of a program, anywhere, changes neither the
    result of [assemble_code] nor what it prints, and neither does
    trimming every line beforehand. *)
Theorem comments_are_ignored (pre post : list str) (c : str) :
  Py.startswith (Py.strip c) "#" = true →
  assemble_code (pre ++ c :: post) = assemble_code (pre ++ post)
  ∧ assemble_code (Py.strip <$> (pre ++ c :: post))
    = assemble_code (pre ++ post).
Proof.
  intros Hc. unfold assemble_code.
  by rewrite preprocess_strip, (preprocess_comment pre post c Hc).
Qed.

Lemma comments_are_ignored_witness :
  assemble_code (["add 1,2,3"] ++ "  # stop here" :: ["halt"])
  = assemble_code (["add 1,2,3"] ++ ["halt"])
  ∧ assemble_code (Py.strip <$> (["add 1,2,3"] ++ "  # stop here" :: ["halt"]))
    = assemble_code (["add 1,2,3"] ++ ["halt"]).
Proof.
  apply (comments_are_ignored ["add 1,2,3"] ["halt"] "  # stop here").
  by vm_compute.
Defined.

(** ** The command line *)

Lemma join_items_Some (i : nat) (ws : list str) :
  join_items i (Some <$> ws) = inr ws.
Proof.
  revert i. induction ws as [|w ws IH]; intros i; [done|].
  rewrite fmap_cons. cbn [join_items]. by rewrite IH.
Qed.

Lemma join_items_inr (i : nat) (items : list (option str)) (l : list str) :
  join_items i items = inr l → items = Some <$> l.
Proof.
  revert i l. induction items as [|[s|] items IH]; intros i l;
    cbn [join_items].
  - by intros [= <-].
  - destruct (join_items (S i) items) as [k|l'] eqn:Hl'; [done|].
    intros [= <-]. by rewrite (IH _ _ Hl').
  - done.
Qed.

(** X29.  [main] writes all the words or nothing.  With the source file
    read and the output file opened, which leaves that file empty:
    when every expanded line assembles to a word, [main] writes the
    words, in order, with one newline between two of them and none at
    the end, and returns.  In every other case (the expander raises, a
    line raises inside the loop so that [assemble_code] returns [None],
    or a line with an unknown mnemonic gives [None] for a word), [main]
    ends with an exception after what [assemble_code] printed: it writes
    nothing, and the output file stays empty. *)
Theorem main_writes_all_or_nothing (read_text : str → option str)
    (writable : str → bool) (prog source outfile : str) (more : list str)
    (text : str) :
  read_text source = Some text →
  writable outfile = true →
  (∀ expanded ws,
     convert_pseudoinstructions (preprocess (splitlines text)) = Ok expanded →
     Forall2 (λ l w, assemble_line l = Ok (Some w)) expanded ws →
     main read_text writable (prog :: source :: outfile :: more)
     = (None,
        Read_file source :: Truncate_file outfile
          :: (Console <$> printed expanded (Some <$> ws))
          ++ [Write_file outfile (join_strs ["010"%char] ws)]))
  ∧ ((∀ ws, (assemble_code (splitlines text)).1 ≠ Ok (Some (Some <$> ws))) →
     ∃ e,
       main read_text writable (prog :: source :: outfile :: more)
       = (Some e,
          Read_file source :: Truncate_file outfile
            :: (Console <$> (assemble_code (splitlines text)).2))).
Proof.
  intros Hread Hwrite. split.
  - intros expanded ws Hexp Hall. unfold main. rewrite Hread, Hwrite.
    rewrite (assemble_code_all _ expanded (Some <$> ws) Hexp)
      by (by apply Forall2_fmap_r).
    unfold join. by rewrite join_items_Some.
  - intros Hfail. unfold main. rewrite Hread, Hwrite.
    destruct (assemble_code (splitlines text)) as [r out]. cbn [fst snd] in *.
    destruct r as [[items|]|e]; [|by eexists..].
    unfold join. destruct (join_items 0 items) as [k|l] eqn:Hl; [by eexists|].
    apply join_items_inr in Hl as ->. by destruct (Hfail l).
Qed.

Lemma main_writes_all_or_nothing_witness :
  (∀ expanded ws,
     convert_pseudoinstructions
       (preprocess (splitlines ("add 1,2,3" ++ "010"%char :: "halt")))
     = Ok expanded →
     Forall2 (λ l w, assemble_line l = Ok (Some w)) expanded ws →
     main (λ _, Some ("add 1,2,3" ++ "010"%char :: "halt")) (λ _, true)
       ("assembler.py" :: "sum.asm" :: "sum.bin" :: [])
     = (None,
        Read_file "sum.asm" :: Truncate_file "sum.bin"
          :: (Console <$> printed expanded (Some <$> ws))
          ++ [Write_file "sum.bin" (join_strs ["010"%char] ws)]))
  ∧ ((∀ ws, (assemble_code
               (splitlines ("add 1,2,3" ++ "010"%char :: "halt"))).1
            ≠ Ok (Some (Some <$> ws))) →
     ∃ e,
       main (λ _, Some ("add 1,2,3" ++ "010"%char :: "halt")) (λ _, true)
         ("assembler.py" :: "sum.asm" :: "sum.bin" :: [])
       = (Some e,
          Read_file "sum.asm" :: Truncate_file "sum.bin"
            :: (Console <$>
                  (assemble_code
                     (splitlines ("add 1,2,3" ++ "010"%char :: "halt"))).2))).
Proof.
  apply (main_writes_all_or_nothing
           (λ _, Some ("add 1,2,3" ++ "010"%char :: "halt")) (λ _, true)
           "assembler.py" "sum.asm" "sum.bin" []); reflexivity.
Defined.

(** Both cases occur.  The second program has the unknown mnemonic
    [foo] on its second line. *)
Remark main_runs :
  main (λ _, Some ("add 1,2,3" ++ "010"%char :: "halt")) (λ _, true)
    ["assembler.py"; "sum.asm"; "sum.bin"]
  = (None,
     [Read_file "sum.asm"; Truncate_file "sum.bin";
      Console (Assembling "add 1,2,3");
      Console (Printed (Some "0000010100000011"));
      Console (Assembling "halt");
      Console (Printed (Some "1110000000000001"));
      Write_file "sum.bin"
        ("0000010100000011" ++ "010"%char :: "1110000000000001")])
  ∧ main (λ _, Some ("halt" ++ "010"%char :: "foo 1,2")) (λ _, true)
      ["assembler.py"; "sum.asm"; "sum.bin"]
    = (Some (TypeError_join_item 1),
       [Read_file "sum.asm"; Truncate_file "sum.bin";
        Console (Assembling "halt");
        Console (Printed (Some "1110000000000001"));
        Console (Assembling "foo 1,2");
        Console (Printed None)]).
Proof. split; by vm_compute. Qed.

(** X30.  The default output path.  Without a second argument the
    output goes to the part of the source path before its first dot: for
    the source [base.ext], with no dot in [base], [main] does what it
    does when [base] is given as the output path.  A source path without
    any dot is its own output path: once it is read, [main] opens it for
    writing, which empties it, before anything is assembled. *)
Theorem main_default_output (read_text : str → option str)
    (writable : str → bool) (prog base ext : str) :
  "."%char ∉ base →
  main read_text writable [prog; base ++ "." ++ ext]
  = main read_text writable [prog; base ++ "." ++ ext; base]
  ∧ main read_text writable [prog; base]
    = main read_text writable [prog; base; base]
  ∧ ∀ text,
      read_text base = Some text →
      writable base = true →
      ∃ e acts,
        main read_text writable [prog; base]
        = (e, Read_file base :: Truncate_file base :: acts).
Proof.
  intros Hdot. split; [|split].
  - unfold main. change ("." ++ ext) with ("."%char :: ext).
    by rewrite partition_app_sep.
  - unfold main. by rewrite partition_no_sep.
  - intros text Hread Hwrite. unfold main.
    rewrite Hread, partition_no_sep by done. cbn [fst]. rewrite Hwrite.
    destruct (assemble_code (splitlines text)) as [[x|e] out];
      [|by eexists _, _].
    destruct (join _ x); [by eexists _, _|].
    eexists _, _. rewrite app_comm_cons.
    by rewrite (app_comm_cons _ _ (Read_file base)).
Qed.

Lemma main_default_output_witness :
  main (λ _, Some "halt") (λ _, true) ["assembler.py"; "sum" ++ "." ++ "asm"]
  = main (λ _, Some "halt") (λ _, true)
      ["assembler.py"; "sum" ++ "." ++ "asm"; "sum"]
  ∧ main (λ _, Some "halt") (λ _, true) ["assembler.py"; "sum"]
    = main (λ _, Some "halt") (λ _, true) ["assembler.py"; "sum"; "sum"]
  ∧ ∀ text,
      (λ _ : str, Some ("halt" : str)) ("sum" : str) = Some text →
      (λ _ : str, true) ("sum" : str) = true →
      ∃ e acts,
        main (λ _, Some "halt") (λ _, true) ["assembler.py"; "sum"]
        = (e, Read_file "sum" :: Truncate_file "sum" :: acts).
Proof.
  apply (main_default_output (λ _, Some "halt") (λ _, true)
           "assembler.py" "sum" "asm").
  by apply (bool_decide_unpack _).
Defined.
